(** * ChemEx: two-state CEST simulation engine

    A shallow embedding of

    - [chemex/bases/two_state/ixyzsz.py]  (the Liouvillian builder),
    - [chemex/experiments/cest/coupled/2st_fast.py]  (the [Profile] class),
      and
    - [chemex/reading.py]  (the parameters to fit and the parameter files),

    together with the properties of these modules.

    Numbers.  Python floats are modelled by the real numbers [R]: the
    arithmetic of the development is exact.  A division whose divisor is
    zero has no real value (numpy yields [nan] or [inf], Python integers
    raise [ZeroDivisionError]); the model reports it as an error.

    Arrays.  One-dimensional numpy arrays are lists of reals, matrices are
    lists of rows.

    External code.  scipy's [linalg.eig] and [linalg.inv] and the modules of
    the package that the files import are parameters of the development
    (the records [ref_basis] and [externals]).  What a call into scipy
    computes and whether it raises are given apart: [eig], [inv] and
    [compute_liouvillian] give the value, [raises] gives the exception of a
    call that raises, and [outcome] puts the two together for a whole
    simulation, which ends at the first call that raises.  The look-ups that
    [__init__] makes in the tables of the package return or raise. *)

From Stdlib Require Import Reals Lra Lia.
From stdpp Require Import gmap strings list.

Local Open Scope R_scope.

(** ** Decidable comparisons on floats *)

#[global] Instance Req_decision : EqDecision R := Req_dec_T.
#[global] Instance Rle_decision : RelDecision Rle := Rle_dec.
#[global] Instance Rlt_decision : RelDecision Rlt := Rlt_dec.
#[global] Instance Rgt_decision : RelDecision Rgt := Rgt_dec.

(** ** Matrices as numpy has them: a list of rows *)

Definition matrix : Type := list (list R).

(** [m * x] for a matrix [m] and a scalar [x]. *)
Definition mscale (m : matrix) (x : R) : matrix :=
  map (map (fun a => a * x)) m.

(** [m1 + m2] for two matrices of one shape. *)
Definition madd (m1 m2 : matrix) : matrix :=
  zip_with (zip_with Rplus) m1 m2.

(** [m1 - m2] for two matrices of one shape. *)
Definition msub (m1 m2 : matrix) : matrix :=
  zip_with (zip_with Rminus) m1 m2.

(** [m[i, j]]; the model reads [0] outside the matrix. *)
Definition mentry (m : matrix) (i j : nat) : R :=
  default 0 (m !! i ≫= fun row => row !! j).

(** [full[np.ix_(rows, cols)]] for a matrix given by its entries. *)
Definition ix_select (rows cols : list nat) (full : nat -> nat -> R) : matrix :=
  map (fun i => map (fun j => full i j) cols) rows.

Definition sum_R (l : list R) : R := foldr Rplus 0 l.

(** [np.diag(v)] for a one-dimensional [v]: the square matrix with [v] on
    its diagonal. *)
Definition diag (v : list R) : matrix :=
  imap (fun i x => <[i := x]> (replicate (length v) 0)) v.

(** Column [j] of a matrix. *)
Definition column (m : matrix) (j : nat) : list R :=
  map (fun row => nth j row 0) m.

(** [np.dot(a, b)] for two matrices; it raises when a row of [a] is not as
    long as [b] has rows. *)
Definition dot (a b : matrix) : option matrix :=
  if decide (Forall (fun row => length row = length b) a) then
    Some (map (fun row =>
                 map (fun j => sum_R (zip_with Rmult row (column b j)))
                   (seq 0 (length (hd [] b))))
            a)
  else None.

Declare Scope matrix_scope.
Delimit Scope matrix_scope with M.
Infix "|+|" := madd (at level 50, left associativity) : matrix_scope.
Infix "|-|" := msub (at level 50, left associativity) : matrix_scope.
Infix "|*|" := mscale (at level 40, left associativity) : matrix_scope.

(** ** [chemex.bases.two_state.ixyzsz] *)

Module Ixyzsz.

(** The reference matrices of [chemex.bases.ref], over the full operator
    basis.  The module is not part of the sources at hand: its matrices are
    taken as given, each by its entries. *)
Record ref_basis : Type := RefBasis {
  ref_mat_r2_i_a : nat -> nat -> R;
  ref_mat_r1_i_a : nat -> nat -> R;
  ref_mat_r2a_i_a : nat -> nat -> R;
  ref_mat_r1a_a : nat -> nat -> R;
  ref_mat_omega_i_a : nat -> nat -> R;
  ref_mat_j_a : nat -> nat -> R;
  ref_mat_etaxy_i_a : nat -> nat -> R;
  ref_mat_etaz_i_a : nat -> nat -> R;
  ref_mat_r2_i_b : nat -> nat -> R;
  ref_mat_r1_i_b : nat -> nat -> R;
  ref_mat_r2a_i_b : nat -> nat -> R;
  ref_mat_r1a_b : nat -> nat -> R;
  ref_mat_omega_i_b : nat -> nat -> R;
  ref_mat_j_b : nat -> nat -> R;
  ref_mat_etaxy_i_b : nat -> nat -> R;
  ref_mat_etaz_i_b : nat -> nat -> R;
  ref_mat_omega1x_i : nat -> nat -> R;
  ref_mat_omega1y_i : nat -> nat -> R;
  ref_mat_kab : nat -> nat -> R;
  ref_mat_kba : nat -> nat -> R
}.

Definition indexes : list nat :=
  [0; 1; 2; 6; 7; 14;
   15; 16; 17; 21; 22; 29]%nat.

(** [ref.mat[mesh]] with [mesh = np.ix_(indexes, indexes)]. *)
Definition mesh (full : nat -> nat -> R) : matrix :=
  ix_select indexes indexes full.

(** The physical terms of the Liouvillian, in the order of the sum in
    [compute_liouvillian]. *)
Inductive term : Type :=
  | T_r2_i_a | T_r2_i_b
  | T_r1_i_a | T_r1_i_b
  | T_r2a_i_a | T_r2a_i_b
  | T_etaxy_i_a | T_etaxy_i_b
  | T_etaz_i_a | T_etaz_i_b
  | T_omega_i_a | T_omega_i_b
  | T_r1a_a | T_r1a_b
  | T_j_a | T_j_b
  | T_omega1x_i | T_omega1y_i
  | T_kab | T_kba.

Definition terms : list term :=
  [T_r2_i_a; T_r2_i_b; T_r1_i_a; T_r1_i_b; T_r2a_i_a; T_r2a_i_b;
   T_etaxy_i_a; T_etaxy_i_b; T_etaz_i_a; T_etaz_i_b;
   T_omega_i_a; T_omega_i_b; T_r1a_a; T_r1a_b; T_j_a; T_j_b;
   T_omega1x_i; T_omega1y_i; T_kab; T_kba].

(** A keyword argument of a call; an argument that the call leaves out
    takes the default [0.0] of the signature. *)
Definition kwarg (kw : gmap string R) (name : string) : R :=
  default 0 (kw !! name).

Section Liouvillian.

Variable ref : ref_basis.

Definition mat_r2_i_a := mesh (ref_mat_r2_i_a ref).
Definition mat_r1_i_a := mesh (ref_mat_r1_i_a ref).
Definition mat_r2a_i_a := mesh (ref_mat_r2a_i_a ref).
Definition mat_r1a_a := mesh (ref_mat_r1a_a ref).
Definition mat_omega_i_a := mesh (ref_mat_omega_i_a ref).
Definition mat_j_a := mesh (ref_mat_j_a ref).
Definition mat_etaxy_i_a := mesh (ref_mat_etaxy_i_a ref).
Definition mat_etaz_i_a := mesh (ref_mat_etaz_i_a ref).

Definition mat_r2_i_b := mesh (ref_mat_r2_i_b ref).
Definition mat_r1_i_b := mesh (ref_mat_r1_i_b ref).
Definition mat_r2a_i_b := mesh (ref_mat_r2a_i_b ref).
Definition mat_r1a_b := mesh (ref_mat_r1a_b ref).
Definition mat_omega_i_b := mesh (ref_mat_omega_i_b ref).
Definition mat_j_b := mesh (ref_mat_j_b ref).
Definition mat_etaxy_i_b := mesh (ref_mat_etaxy_i_b ref).
Definition mat_etaz_i_b := mesh (ref_mat_etaz_i_b ref).

Definition mat_omega1x_i := mesh (ref_mat_omega1x_i ref).
Definition mat_omega1y_i := mesh (ref_mat_omega1y_i ref).

Definition mat_kab := mesh (ref_mat_kab ref).
Definition mat_kba := mesh (ref_mat_kba ref).

(** [compute_liouvillian(pb=0.0, kex_ab=0.0, ..., **kwargs)].  The call is
    the map of its keyword arguments; names the signature does not list
    land in [**kwargs] and are not read. *)
Definition compute_liouvillian (kw : gmap string R) : matrix :=
  let pb := kwarg kw "pb" in
  let kex_ab := kwarg kw "kex_ab" in
  let r2_i_a := kwarg kw "r2_i_a" in
  let r1_i_a := kwarg kw "r1_i_a" in
  let r2a_i_a := kwarg kw "r2a_i_a" in
  let etaxy_i_a := kwarg kw "etaxy_i_a" in
  let etaz_i_a := kwarg kw "etaz_i_a" in
  let omega_i_a := kwarg kw "omega_i_a" in
  let r2_i_b := kwarg kw "r2_i_b" in
  let r1_i_b := kwarg kw "r1_i_b" in
  let r2a_i_b := kwarg kw "r2a_i_b" in
  let etaxy_i_b := kwarg kw "etaxy_i_b" in
  let etaz_i_b := kwarg kw "etaz_i_b" in
  let omega_i_b := kwarg kw "omega_i_b" in
  let r1a_a := kwarg kw "r1a_a" in
  let j_a := kwarg kw "j_a" in
  let r1a_b := kwarg kw "r1a_b" in
  let j_b := kwarg kw "j_b" in
  let omega1x_i := kwarg kw "omega1x_i" in
  let omega1y_i := kwarg kw "omega1y_i" in
  let pa := 1 - pb in
  let kab := kex_ab * pb in
  let kba := kex_ab * pa in
  (mat_r2_i_a |*| r2_i_a |+|
   mat_r2_i_b |*| r2_i_b |+|
   mat_r1_i_a |*| r1_i_a |+|
   mat_r1_i_b |*| r1_i_b |+|
   mat_r2a_i_a |*| r2a_i_a |+|
   mat_r2a_i_b |*| r2a_i_b |+|
   mat_etaxy_i_a |*| etaxy_i_a |+|
   mat_etaxy_i_b |*| etaxy_i_b |+|
   mat_etaz_i_a |*| etaz_i_a |+|
   mat_etaz_i_b |*| etaz_i_b |+|
   mat_omega_i_a |*| omega_i_a |+|
   mat_omega_i_b |*| omega_i_b |+|
   mat_r1a_a |*| r1a_a |+|
   mat_r1a_b |*| r1a_b |+|
   mat_j_a |*| j_a |+|
   mat_j_b |*| j_b |+|
   mat_omega1x_i |*| omega1x_i |+|
   mat_omega1y_i |*| omega1y_i |+|
   mat_kab |*| kab |+|
   mat_kba |*| kba)%M.

Definition index_iz : list nat := [2; 8]%nat.
Definition index_iz_a : list nat := [2]%nat.

Definition index_2izsz : list nat := [5; 11]%nat.
Definition index_2izsz_a : list nat := [5]%nat.

(** [mag0[index] = rows] on a column vector: the rows go to the positions
    that [index] lists. *)
Definition set_rows (index : list nat) (rows : list (list R)) (mag0 : matrix)
    : matrix :=
  foldl (fun m ir => <[ir.1 := ir.2]> m) mag0 (zip index rows).

(** [compute_equilibrium_2izsz(pb=0.0, **kwargs)]. *)
Definition compute_equilibrium_2izsz (kw : gmap string R) : matrix :=
  let pb := kwarg kw "pb" in
  let mag0 := replicate 12 [0] in
  set_rows index_2izsz [[1 - pb]; [pb]] mag0.

(** [compute_2izsz_a(pb=0.0, **kwargs)]. *)
Definition compute_2izsz_a (kw : gmap string R) : matrix :=
  let pb := kwarg kw "pb" in
  let mag0 := replicate 12 [0] in
  set_rows index_2izsz [[1 - pb]; [0]] mag0.

(** The structural matrix of a term, before the selection of the basis. *)
Definition ref_of (t : term) : nat -> nat -> R :=
  match t with
  | T_r2_i_a => ref_mat_r2_i_a ref | T_r2_i_b => ref_mat_r2_i_b ref
  | T_r1_i_a => ref_mat_r1_i_a ref | T_r1_i_b => ref_mat_r1_i_b ref
  | T_r2a_i_a => ref_mat_r2a_i_a ref | T_r2a_i_b => ref_mat_r2a_i_b ref
  | T_etaxy_i_a => ref_mat_etaxy_i_a ref | T_etaxy_i_b => ref_mat_etaxy_i_b ref
  | T_etaz_i_a => ref_mat_etaz_i_a ref | T_etaz_i_b => ref_mat_etaz_i_b ref
  | T_omega_i_a => ref_mat_omega_i_a ref | T_omega_i_b => ref_mat_omega_i_b ref
  | T_r1a_a => ref_mat_r1a_a ref | T_r1a_b => ref_mat_r1a_b ref
  | T_j_a => ref_mat_j_a ref | T_j_b => ref_mat_j_b ref
  | T_omega1x_i => ref_mat_omega1x_i ref | T_omega1y_i => ref_mat_omega1y_i ref
  | T_kab => ref_mat_kab ref | T_kba => ref_mat_kba ref
  end.

(** The structural matrix of a term over the twelve-component basis. *)
Definition structural (t : term) : matrix := mesh (ref_of t).

End Liouvillian.

Definition p_180x_s : matrix :=
  diag [1; 1; 1; -1; -1; -1;
        1; 1; 1; -1; -1; -1].

(** [p_180x_s[:]]: the same entries. *)
Definition p_180y_s : matrix := p_180x_s.

Definition p_180x_i_perfect : matrix :=
  diag [1; -1; -1; 1; -1; -1;
        1; -1; -1; 1; -1; -1].

(** A reference basis for the examples: every matrix is the identity. *)
Definition demo_ref : ref_basis :=
  let ident (i j : nat) := if decide (i = j) then 1 else 0 in
  RefBasis ident ident ident ident ident ident ident ident ident ident
    ident ident ident ident ident ident ident ident ident ident.

(** The names that the signature of [compute_liouvillian] lists; any other
    keyword of a call lands in the catch-all of the signature. *)
Definition keyword_names : list string :=
  ["pb"; "kex_ab";
   "r2_i_a"; "r1_i_a"; "r2a_i_a"; "etaxy_i_a"; "etaz_i_a"; "omega_i_a";
   "r2_i_b"; "r1_i_b"; "r2a_i_b"; "etaxy_i_b"; "etaz_i_b"; "omega_i_b";
   "r1a_a"; "j_a";
   "r1a_b"; "j_b";
   "omega1x_i"; "omega1y_i"].

(** The value that weighs a term: the parameter of that name, and for the
    two exchange matrices [k_AB = k_ex * pB] and [k_BA = k_ex * (1 - pB)]. *)
Definition weight (kw : gmap string R) (t : term) : R :=
  match t with
  | T_r2_i_a => kwarg kw "r2_i_a" | T_r2_i_b => kwarg kw "r2_i_b"
  | T_r1_i_a => kwarg kw "r1_i_a" | T_r1_i_b => kwarg kw "r1_i_b"
  | T_r2a_i_a => kwarg kw "r2a_i_a" | T_r2a_i_b => kwarg kw "r2a_i_b"
  | T_etaxy_i_a => kwarg kw "etaxy_i_a" | T_etaxy_i_b => kwarg kw "etaxy_i_b"
  | T_etaz_i_a => kwarg kw "etaz_i_a" | T_etaz_i_b => kwarg kw "etaz_i_b"
  | T_omega_i_a => kwarg kw "omega_i_a" | T_omega_i_b => kwarg kw "omega_i_b"
  | T_r1a_a => kwarg kw "r1a_a" | T_r1a_b => kwarg kw "r1a_b"
  | T_j_a => kwarg kw "j_a" | T_j_b => kwarg kw "j_b"
  | T_omega1x_i => kwarg kw "omega1x_i" | T_omega1y_i => kwarg kw "omega1y_i"
  | T_kab => kwarg kw "kex_ab" * kwarg kw "pb"
  | T_kba => kwarg kw "kex_ab" * (1 - kwarg kw "pb")
  end.

(** The sum over all terms of (value) times (that term's structural
    matrix), added up from the zero matrix. *)
Definition term_sum (ref : ref_basis) (kw : gmap string R) : matrix :=
  foldr madd (mesh (fun _ _ => 0))
    (map (fun t => structural ref t |*| weight kw t)%M terms).

(** The same sum, entry by entry. *)
Definition entry_sum (ref : ref_basis) (kw : gmap string R) : matrix :=
  mesh (fun i j => sum_R (map (fun t => weight kw t * ref_of ref t i j) terms)).

End Ixyzsz.

(** ** Complex numbers and complex matrices *)

Definition C : Type := (R * R)%type.

Definition C0 : C := (0, 0).
Definition Cone : C := (1, 0).
Definition RtoC (x : R) : C := (x, 0).
Definition Re (z : C) : R := fst z.
Definition Im (z : C) : R := snd z.
Definition Cadd (z w : C) : C := (Re z + Re w, Im z + Im w).
Definition Copp (z : C) : C := (- Re z, - Im z).
Definition Csub (z w : C) : C := (Re z - Re w, Im z - Im w).
Definition Cmul (z w : C) : C :=
  (Re z * Re w - Im z * Im w, Re z * Im w + Im z * Re w).

(** [z * t] for a complex [z] and a float [t]. *)
Definition Cscale (z : C) (t : R) : C := Cmul z (RtoC t).

(** [np.exp] on a complex number. *)
Definition Cexp (z : C) : C := (exp (Re z) * cos (Im z), exp (Re z) * sin (Im z)).

Definition Csum (l : list C) : C := foldr Cadd C0 l.

(** The sum of [f 0], ..., [f (n - 1)]. *)
Definition Csum_below (n : nat) (f : nat -> C) : C := Csum (map f (seq 0 n)).

(** A two-dimensional complex array: its shape and its entries. *)
Record cmatrix : Type := CMatrix {
  nrows : nat;
  ncols : nat;
  centry : nat -> nat -> C
}.

(** [m[np.ix_(rows, cols)]]. *)
Definition cix_ (m : cmatrix) (rows cols : list nat) : cmatrix :=
  {| nrows := length rows;
     ncols := length cols;
     centry := fun i j => centry m (nth i rows 0%nat) (nth j cols 0%nat) |}.

(** [np.diag(v)] for a one-dimensional [v]. *)
Definition cdiag (v : list C) : cmatrix :=
  {| nrows := length v;
     ncols := length v;
     centry := fun i j => if decide (i = j) then nth i v C0 else C0 |}.

(** [np.dot(a, b)]; the shapes of the products below agree by construction. *)
Definition cdot (a b : cmatrix) : cmatrix :=
  {| nrows := nrows a;
     ncols := ncols b;
     centry := fun i j =>
       Csum_below (ncols a) (fun k => Cmul (centry a i k) (centry b k j)) |}.

(** A real array [[x], [y]] seen as a complex one. *)
Definition column2 (x y : R) : cmatrix :=
  {| nrows := 2;
     ncols := 1;
     centry := fun i j =>
       match i, j with
       | 0%nat, 0%nat => RtoC x
       | 1%nat, 0%nat => RtoC y
       | _, _ => C0
       end |}.

(** [enumerate(l)]. *)
Definition enumerate {A} (l : list A) : list (nat * A) :=
  zip (seq 0 (length l)) l.

(** ** [chemex.experiments.cest.coupled.2st_fast] *)

Module Cest.

(** *** Exceptions *)

Inductive error : Type :=
  | KeyError (key : string)           (* a dictionary has no such key *)
  | MissingParameter (name : string)  (* [check_par] finds no value *)
  | ValueError (what : string)        (* not a number; shapes do not broadcast *)
  | IndexError                        (* boolean index of another length *)
  | NotFinite                         (* division by zero: no real value *)
  | LinAlgError (what : string).      (* scipy: singular matrix, no convergence *)

Inductive result (A : Type) : Type :=
  | Ok (a : A)
  | Err (e : error).
Arguments Ok {A} a.
Arguments Err {A} e.

#[global] Instance result_ret : MRet result := fun A a => Ok a.
#[global] Instance result_bind : MBind result := fun A B f r =>
  match r with Ok a => f a | Err e => Err e end.

Definition is_ok {A} (r : result A) : bool :=
  match r with Ok _ => true | Err _ => false end.

(** *** numpy arithmetic on one-dimensional arrays *)

(** Broadcasting of two one-dimensional arrays: equal lengths, or one of
    them of length one. *)
Definition broadcast (a b : list R) : result (list R * list R) :=
  if decide (length a = length b) then Ok (a, b)
  else if decide (length a = 1%nat) then Ok (replicate (length b) (hd 0 a), b)
  else if decide (length b = 1%nat) then Ok (a, replicate (length a) (hd 0 b))
  else Err (ValueError "operands could not be broadcast together").

Definition arr_mul (a b : list R) : result (list R) :=
  ab ← broadcast a b; Ok (zip_with Rmult ab.1 ab.2).

Definition arr_sub (a b : list R) : result (list R) :=
  ab ← broadcast a b; Ok (zip_with Rminus ab.1 ab.2).

(** A quotient with a zero divisor is [inf] or [nan] in numpy. *)
Definition arr_div (a b : list R) : result (list R) :=
  ab ← broadcast a b;
  if decide (0 ∈ ab.2) then Err NotFinite else Ok (zip_with Rdiv ab.1 ab.2).

(** [a ** 2]. *)
Definition arr_sq (a : list R) : list R := map (fun x => x * x) a.

(** [a * x] for an array and a scalar. *)
Definition arr_scale (a : list R) (x : R) : list R := map (fun v => v * x) a.

(** The builtin [sum]: it starts from [0] and adds from the left. *)
Definition py_sum (a : list R) : R := fold_left Rplus a 0.

Definition div (x y : R) : result R :=
  if decide (y = 0) then Err NotFinite else Ok (x / y).

(** [a[mask]] for a boolean array [mask]. *)
Fixpoint mask_select {A} (a : list A) (mask : list bool) : list A :=
  match a, mask with
  | x :: a', b :: mask' =>
      if b then x :: mask_select a' mask' else mask_select a' mask'
  | _, _ => []
  end.

Definition bool_index (a : list R) (mask : list bool) : result (list R) :=
  if decide (length a = length mask) then Ok (mask_select a mask)
  else Err IndexError.

(** *** Calls into scipy: a log of what was computed *)

Inductive call : Type :=
  | CallLiouvillian (kw : gmap string R)
  | CallEig (liouvillian : matrix)
  | CallInv (vr : cmatrix).

Definition traced (A : Type) : Type := (A * list call)%type.

#[global] Instance traced_ret : MRet traced := fun A a => (a, []).
#[global] Instance traced_bind : MBind traced := fun A B f m =>
  let r := f m.1 in (r.1, m.2 ++ r.2).

(** A [for] loop that threads the variables it assigns through its body. *)
Fixpoint for_loop {A S} (xs : list A) (body : S -> A -> traced S) (s : S)
    : traced S :=
  match xs with
  | [] => mret s
  | x :: xs' => s' ← body s x; for_loop xs' body s'
  end.

(** *** What the module imports *)

(** The parts of the package and of scipy that [2st_fast.py] calls. *)
Record externals : Type := Externals {
  (* [Peak(name).resonances[0]['name']]: [Peak] raises for a name that it
     cannot read as an assignment *)
  resonance_name : string -> result string;
  (* [constants.xi_ratio[Peak(name).resonances[0]['atom']]]: a [KeyError]
     for an atom that the table does not hold *)
  xi_ratio : string -> result R;
  (* [calc_multiplet(constants.j_xc_couplings[symbol][nucleus])]: a
     [KeyError] for a nucleus that the table does not hold *)
  calc_multiplet : string -> result (list (R * R));
  (* [ParameterName(name, temperature, nuclei, h_larmor_frq).to_full_name()] *)
  to_full_name : string -> R -> option string -> option R -> string;
  (* [util.calculate_shift_ex_2st(pb, kex_ab, domega_i_ab, lambda_i_a, lambda_i_b)] *)
  calculate_shift_2st : R -> R -> R -> R -> R -> R * R;
  (* [iph_2st.compute_liouvillian], called with keyword arguments *)
  compute_liouvillian : gmap string R -> matrix;
  (* [scipy.linalg.eig]: eigenvalues and right eigenvectors *)
  eig : matrix -> list C * cmatrix;
  (* [scipy.linalg.inv] *)
  inv : cmatrix -> cmatrix;
  (* the exception that one of the logged calls raises, if it raises:
     [LinAlgError] of [linalg.inv] for a singular matrix, of [linalg.eig]
     when the iteration does not converge *)
  raises : call -> option error
}.

(** A value of the experiment's configuration: one that [float] converts,
    or a text that it does not. *)
Inductive setting : Type :=
  | Number (x : R)
  | Text (s : string).

Definition float (name : string) (v : setting) : result R :=
  match v with
  | Number x => Ok x
  | Text _ => Err (ValueError name)
  end.

(** Modelled from the spec: [check_par] of [chemex.experiments.base_profile],
    which is not among the sources.  It reads one setting of the experiment;
    a setting that is absent and has no default is a configuration error,
    raised at once. *)
Definition check_par (exp_details : gmap string setting) (name : string)
    (default : option setting) : result setting :=
  match exp_details !! name with
  | Some v => Ok v
  | None =>
      match default with
      | Some v => Ok v
      | None => Err (MissingParameter name)
      end
  end.

Definition check_par_float (exp_details : gmap string setting) (name : string)
    (default : option setting) : result R :=
  v ← check_par exp_details name default; float name v.

(** [d[key]]. *)
Definition getitem {V} (d : gmap string V) (key : string) : result V :=
  match d !! key with
  | Some v => Ok v
  | None => Err (KeyError key)
  end.

(** *** The class [Profile] *)

Definition two_pi : R := 2 * PI.

(** [self.map_names]: a dictionary with seven fixed keys. *)
Record names : Type := Names {
  name_pb : string;
  name_kex_ab : string;
  name_cs_i_a : string;
  name_dw_i_ab : string;
  name_lambda_i_a : string;
  name_dlambda_i_ab : string;
  name_rho_i_a : string
}.

(** The keyword arguments of [_calculate_profile]. *)
Record sim_args : Type := SimArgs {
  pb : R;
  kex_ab : R;
  dw_i_ab : R;
  rho_i_a : R;
  lambda_i_a : R;
  dlambda_i_ab : R;
  cs_i_a : R
}.

#[global] Instance sim_args_eq_dec : EqDecision sim_args.
Proof. solve_decision. Defined.

Record Profile : Type := MkProfile {
  profile_name : string;
  b1_offsets : list R;
  val : list R;
  err : list R;
  h_larmor_frq : R;
  temperature : R;
  carrier : R;
  b1_frq : R;
  time_t1 : R;
  experiment_name : setting;
  on_resonance_filter : R;
  (* the store of [lru_cache(5)] around [_calculate_profile], most recent
     call first *)
  cache : list (sim_args * list R);
  ppm_to_rads : R;
  multiplet : list (R * R);
  map_names : names
}.

Definition set_b1_offsets (v : list R) (self : Profile) : Profile :=
  MkProfile (profile_name self) v (val self) (err self) (h_larmor_frq self)
    (temperature self) (carrier self) (b1_frq self) (time_t1 self)
    (experiment_name self) (on_resonance_filter self) (cache self)
    (ppm_to_rads self) (multiplet self) (map_names self).

Definition set_val (v : list R) (self : Profile) : Profile :=
  MkProfile (profile_name self) (b1_offsets self) v (err self)
    (h_larmor_frq self) (temperature self) (carrier self) (b1_frq self)
    (time_t1 self) (experiment_name self) (on_resonance_filter self)
    (cache self) (ppm_to_rads self) (multiplet self) (map_names self).

Definition set_err (v : list R) (self : Profile) : Profile :=
  MkProfile (profile_name self) (b1_offsets self) (val self) v
    (h_larmor_frq self) (temperature self) (carrier self) (b1_frq self)
    (time_t1 self) (experiment_name self) (on_resonance_filter self)
    (cache self) (ppm_to_rads self) (multiplet self) (map_names self).

Definition set_cache (v : list (sim_args * list R)) (self : Profile) : Profile :=
  MkProfile (profile_name self) (b1_offsets self) (val self) (err self)
    (h_larmor_frq self) (temperature self) (carrier self) (b1_frq self)
    (time_t1 self) (experiment_name self) (on_resonance_filter self)
    v (ppm_to_rads self) (multiplet self) (map_names self).

(** A method: it reads and assigns the attributes of [self], and returns
    or raises.  What it assigned before it raised stays assigned. *)
Definition method (A : Type) : Type := Profile -> result A * Profile.

#[global] Instance method_ret : MRet method := fun A a self => (Ok a, self).
#[global] Instance method_bind : MBind method := fun A B f m self =>
  match m self with
  | (Ok a, self') => f a self'
  | (Err e, self') => (Err e, self')
  end.

(** Read an attribute; run a computation that may raise; assign. *)
Definition attr {A} (f : Profile -> A) : method A :=
  fun self => (Ok (f self), self).
Definition this : method Profile :=
  fun self => (Ok self, self).
Definition raising {A} (r : result A) : method A :=
  fun self => (r, self).
Definition assign (f : Profile -> Profile) : method unit :=
  fun self => (Ok tt, f self).

Definition logged {A} (c : call) (a : A) : traced A := (a, [c]).

Section Methods.

Variable ext : externals.

(** [Profile.__init__(self, profile_name, measurements, exp_details)]. *)
Definition __init__ (profile_name : string)
    (measurements : gmap string (list R))
    (exp_details : gmap string setting) : result Profile :=
  b1_offsets ← getitem measurements "b1_offsets";
  val ← getitem measurements "intensities";
  err ← getitem measurements "intensities_err";
  h_larmor_frq ← check_par_float exp_details "h_larmor_frq" None;
  temperature ← check_par_float exp_details "temperature" None;
  carrier ← check_par_float exp_details "carrier" None;
  b1_frq ← check_par_float exp_details "b1_frq" None;
  time_t1 ← check_par_float exp_details "time_t1" None;
  experiment_name ← check_par exp_details "experiment_name" None;
  on_resonance_filter ←
    check_par_float exp_details "on_resonance_filter" (Some (Number 0));
  resonance ← resonance_name ext profile_name;
  xi ← xi_ratio ext profile_name;
  let ppm_to_rads := h_larmor_frq * two_pi * xi in
  multiplet ← calc_multiplet ext profile_name;
  let kwargs1 name := to_full_name ext name temperature None None in
  let kwargs2 name := to_full_name ext name temperature (Some resonance) None in
  let kwargs3 name :=
    to_full_name ext name temperature (Some resonance) (Some h_larmor_frq) in
  let map_names :=
    {| name_pb := kwargs1 "pb";
       name_kex_ab := kwargs1 "kex_ab";
       name_cs_i_a := kwargs2 "cs_a";
       name_dw_i_ab := kwargs2 "dw_ab";
       name_lambda_i_a := kwargs3 "lambda_a";
       name_dlambda_i_ab := kwargs3 "dlambda_ab";
       name_rho_i_a := kwargs3 "rho_a" |} in
  Ok (MkProfile profile_name b1_offsets val err h_larmor_frq temperature
        carrier b1_frq time_t1 experiment_name on_resonance_filter []
        ppm_to_rads multiplet map_names).

(** The test of the comprehension below: [abs(x) < 0.9 * omega1x_i] for the
    imaginary part [x] of an eigenvalue. *)
Definition is_slow (omega1x_i : R) (z : C) : bool :=
  bool_decide (Rabs (Im z) < 0.9 * omega1x_i).

(** The indices of the eigenvalues that the propagation keeps:
    [[i for i, x in enumerate(s.imag) if abs(x) < 0.9 * omega1x_i]]. *)
Definition slow_modes (s : list C) (omega1x_i : R) : list nat :=
  map fst (List.filter (fun ix => is_slow omega1x_i ix.2) (enumerate s)).

(** The keyword arguments of the call of [compute_liouvillian] for the line
    at the shift [j]. *)
Definition line_kwargs (a : sim_args)
    (omega_i_a domega_i_ab omega1x_i lambda_i_b j : R) : gmap string R :=
  list_to_map
    [("pb", pb a); ("kex_ab", kex_ab a);
     ("lambda_i_a", lambda_i_a a); ("rho_i_a", rho_i_a a);
     ("omega_i_a", omega_i_a + j);
     ("lambda_i_b", lambda_i_b); ("rho_i_b", rho_i_a a);
     ("omega_i_b", omega_i_a + domega_i_ab + j);
     ("omega1x_i", omega1x_i)].

(** The body of the loop over the multiplet, up to [magz_a_.real]: one line
    at the shift [j]. *)
Definition line_magz (self : Profile) (a : sim_args)
    (omega_i_a domega_i_ab omega1x_i lambda_i_b : R) (magz_eq : cmatrix)
    (j : R) : traced R :=
  let kw := line_kwargs a omega_i_a domega_i_ab omega1x_i lambda_i_b j in
  liouvillian ← logged (CallLiouvillian kw) (compute_liouvillian ext kw);
  s_vr ← logged (CallEig liouvillian) (eig ext liouvillian);
  let s := s_vr.1 in
  let vr := s_vr.2 in
  vri ← logged (CallInv vr) (inv ext vr);
  let sl1 := [2; 5]%nat in
  let sl2 := slow_modes s omega1x_i in
  let sl3 := [2]%nat in
  let vri := cix_ vri sl2 sl1 in
  let t :=
    cdiag (map (fun i => Cexp (Cscale (nth i s C0) (time_t1 self))) sl2) in
  let vr := cix_ vr sl3 sl2 in
  let magz_a_ := centry (cdot (cdot (cdot vr t) vri) magz_eq) 0 0 in
  mret (Re magz_a_).

(** The body of the loop over the offsets: the intensity at one offset. *)
Definition offset_magz (self : Profile) (a : sim_args)
    (domega_i_ab omega1x_i lambda_i_b : R) (b1_offset omega_i_a : R)
    : traced R :=
  if decide (b1_offset <= -10000) then
    mret (1 - pb a)
  else
    for_loop (multiplet self)
      (fun magz_a jw =>
         magz_a_ ← line_magz self a omega_i_a domega_i_ab omega1x_i lambda_i_b
                     (column2 (1 - pb a) (pb a)) jw.1;
         mret (magz_a + jw.2 * magz_a_))
      0.

(** [Profile._calculate_profile(self, pb, kex_ab, dw_i_ab, rho_i_a,
    lambda_i_a, dlambda_i_ab, cs_i_a)], the function itself, without the
    cache that [__init__] wraps around it. *)
Definition _calculate_profile (self : Profile) (a : sim_args)
    : traced (list R) :=
  let omega_i_a_array :=
    map (fun b1 => (cs_i_a a - carrier self) * ppm_to_rads self - two_pi * b1)
      (b1_offsets self) in
  let domega_i_ab := dw_i_ab a * ppm_to_rads self in
  let omega1x_i := two_pi * b1_frq self in
  let lambda_i_b := lambda_i_a a + dlambda_i_ab a in
  let shift_ex :=
    (calculate_shift_2st ext (pb a) (kex_ab a) domega_i_ab (lambda_i_a a)
       lambda_i_b).1 in
  let omega_i_a_array := map (fun w => w - shift_ex) omega_i_a_array in
  for_loop (zip (b1_offsets self) omega_i_a_array)
    (fun profile bo =>
       magz_a ← offset_magz self a domega_i_ab omega1x_i lambda_i_b bo.1 bo.2;
       mret (profile ++ [magz_a]))
    [].

(** The shift of state A at the offset [b1], after the correction for the
    exchange-induced shift: the entry of [omega_i_a_array] for [b1]. *)
Definition omega_i_a_at (self : Profile) (a : sim_args) (b1 : R) : R :=
  (cs_i_a a - carrier self) * ppm_to_rads self - two_pi * b1
  - (calculate_shift_2st ext (pb a) (kex_ab a) (dw_i_ab a * ppm_to_rads self)
       (lambda_i_a a) (lambda_i_a a + dlambda_i_ab a)).1.

(** The intensity at the offset [b1], with the values that the loop of
    [_calculate_profile] hands to its body at that offset. *)
Definition point_at (self : Profile) (a : sim_args) (b1 : R) : traced R :=
  offset_magz self a (dw_i_ab a * ppm_to_rads self) (two_pi * b1_frq self)
    (lambda_i_a a + dlambda_i_ab a) b1 (omega_i_a_at self a b1).

(** The eigenvalues and eigenvectors of the Liouvillian of one line of the
    multiplet at the offset [b1], and the inverse of the eigenvectors. *)
Definition line_eig (self : Profile) (a : sim_args) (b1 j : R)
    : list C * cmatrix :=
  eig ext
    (compute_liouvillian ext
       (line_kwargs a (omega_i_a_at self a b1) (dw_i_ab a * ppm_to_rads self)
          (two_pi * b1_frq self) (lambda_i_a a + dlambda_i_ab a) j)).

Definition line_inv (self : Profile) (a : sim_args) (b1 j : R) : cmatrix :=
  inv ext (line_eig self a b1 j).2.

(** The first of the calls of a log that raises.  The calls are made in the
    order of the log. *)
Fixpoint first_raise (log : list call) : option error :=
  match log with
  | [] => None
  | c :: log' =>
      match raises ext c with
      | Some e => Some e
      | None => first_raise log'
      end
  end.

(** What a call of a function that calls into scipy comes to.  Nothing in
    [_calculate_profile] catches an exception, so the first call that
    raises ends it with that exception; what the function would have
    computed after it is never seen. *)
Definition outcome {A} (m : traced A) : result A :=
  match first_raise m.2 with
  | Some e => Err e
  | None => Ok m.1
  end.

(** [lru_cache(5)]: the stored result of a call with these arguments. *)
Fixpoint cache_find (a : sim_args) (entries : list (sim_args * list R))
    : option (list R) :=
  match entries with
  | [] => None
  | (k, v) :: entries' => if decide (k = a) then Some v else cache_find a entries'
  end.

Definition cache_remove (a : sim_args) (entries : list (sim_args * list R))
    : list (sim_args * list R) :=
  List.filter (fun kv => bool_decide (kv.1 <> a)) entries.

(** [self._calculate_profile(...)] as [__init__] leaves it: behind
    [lru_cache(5)], whose key is the arguments of the call.  A call that
    raises stores nothing. *)
Definition cached_calculate_profile (a : sim_args) : method (list R) :=
  fun self =>
    match cache_find a (cache self) with
    | Some values =>
        (Ok values, set_cache ((a, values) :: cache_remove a (cache self)) self)
    | None =>
        match outcome (_calculate_profile self a) with
        | Ok values =>
            (Ok values, set_cache (take 5 ((a, values) :: cache self)) self)
        | Err e => (Err e, self)
        end
    end.

(** [Profile._calculate_scale(self, cal)]. *)
Definition _calculate_scale (self : Profile) (cal : list R) : result R :=
  cv ← arr_mul cal (val self);
  numerators ← arr_div cv (arr_sq (err self));
  ce ← arr_div cal (err self);
  div (py_sum numerators) (py_sum (arr_sq ce)).

(** The dictionary comprehension that opens [calculate_profile]. *)
Definition kwargs_of (params : gmap string R) (n : names) : result sim_args :=
  pb ← getitem params (name_pb n);
  kex_ab ← getitem params (name_kex_ab n);
  cs_i_a ← getitem params (name_cs_i_a n);
  dw_i_ab ← getitem params (name_dw_i_ab n);
  lambda_i_a ← getitem params (name_lambda_i_a n);
  dlambda_i_ab ← getitem params (name_dlambda_i_ab n);
  rho_i_a ← getitem params (name_rho_i_a n);
  Ok (SimArgs pb kex_ab dw_i_ab rho_i_a lambda_i_a dlambda_i_ab cs_i_a).

(** [Profile.calculate_profile(self, params, b1_offsets=None)].  The
    assignment that puts the offsets back is an ordinary statement, in no
    [finally] clause: it does not run when the call before it raises. *)
Definition calculate_profile (params : gmap string R)
    (b1_offsets_arg : option (list R)) : method (list R) :=
  names ← attr map_names;
  kwargs ← raising (kwargs_of params names);
  values ← cached_calculate_profile kwargs;
  self ← this;
  scale ← raising (_calculate_scale self values);
  values ←
    match b1_offsets_arg with
    | None => mret values
    | Some b1_offsets_new =>
        b1_orig ← attr b1_offsets;
        assign (set_b1_offsets b1_offsets_new);;
        self ← this;
        values ← raising (outcome (_calculate_profile self kwargs));
        assign (set_b1_offsets b1_orig);;
        mret values
    end;
  mret (arr_scale values scale).

(** [Profile.calculate_residuals(self, params)]. *)
Definition calculate_residuals (params : gmap string R) : method (list R) :=
  values ← calculate_profile params None;
  self ← this;
  differences ← raising (arr_sub (val self) values);
  raising (arr_div differences (err self)).

(** [Profile.b1_offsets_to_ppm(self, b1_offsets=None)].  The division is
    made entry by entry: of an empty array it leaves an empty array. *)
Definition b1_offsets_to_ppm (self : Profile) (b1_offsets_arg : option (list R))
    : result (list R) :=
  let offsets := default (b1_offsets self) b1_offsets_arg in
  mapM (fun b1 => quotient ← div (two_pi * b1) (ppm_to_rads self);
                  Ok (quotient + carrier self))
    offsets.

(** [nu_offsets] of [filter_points], at one offset. *)
Definition nu_offset (self : Profile) (cs b1 : R) : R :=
  (cs - carrier self) * ppm_to_rads self / (2 * PI) - b1.

(** Whether [filter_points] keeps the point at the offset [b1]: one entry
    of [mask]. *)
Definition keeps (self : Profile) (cs b1 : R) : bool :=
  bool_decide (Rabs (nu_offset self cs b1) > on_resonance_filter self * 0.5).

(** [mask] of [filter_points]. *)
Definition filter_mask (self : Profile) (cs : R) : list bool :=
  map (keeps self cs) (b1_offsets self).

(** [Profile.filter_points(self, params)]. *)
Definition filter_points (params : gmap string R) : method unit :=
  self ← this;
  cs ← raising (getitem params (name_cs_i_a (map_names self)));
  let mask := filter_mask self cs in
  kept ← raising (bool_index (b1_offsets self) mask);
  assign (set_b1_offsets kept);;
  kept ← raising (bool_index (val self) mask);
  assign (set_val kept);;
  kept ← raising (bool_index (err self) mask);
  assign (set_err kept).

End Methods.

(** The attributes that [filter_points] reads but never assigns. *)
Definition same_settings (p q : Profile) : Prop :=
  carrier q = carrier p /\ ppm_to_rads q = ppm_to_rads p
  /\ on_resonance_filter q = on_resonance_filter p
  /\ map_names q = map_names p.

(** *** The quantities that the properties speak of *)

(** The row of longitudinal state A of
    [V_obs . diag(exp(lambda * t)) . V_inv . m0], with [m0 = (1 - pb, pb)],
    over the eigenmodes [modes]: the sum over the modes [i] of
    [V[2, i] * exp(lambda_i * t) * (V_inv[i, 2] * (1 - pb) + V_inv[i, 5] * pb)]. *)
Definition propagated (s : list C) (vr vri : cmatrix) (t pb : R)
    (modes : list nat) : C :=
  Csum (map (fun i =>
               Cmul (Cmul (centry vr 2 i) (Cexp (Cscale (nth i s C0) t)))
                 (Cadd (Cmul (centry vri i 2) (RtoC (1 - pb)))
                    (Cmul (centry vri i 5) (RtoC pb))))
          modes).

(** The points of a fit: simulated value, measured value, error. *)
Definition points (cal val err : list R) : list (R * (R * R)) :=
  zip cal (zip val err).

(** Over the points of a fit: the sum of [(simulated / err)**2], the sum of
    [simulated * measured / err**2], the sum of [(measured / err)**2], and
    the sum of the squares of [(measured - s * simulated) / err]. *)
Definition sum_cc (pts : list (R * (R * R))) : R :=
  sum_R (map (fun cve => (cve.1 / cve.2.2) * (cve.1 / cve.2.2)) pts).
Definition sum_cv (pts : list (R * (R * R))) : R :=
  sum_R (map (fun cve => cve.1 * cve.2.1 / (cve.2.2 * cve.2.2)) pts).
Definition sum_vv (pts : list (R * (R * R))) : R :=
  sum_R (map (fun cve => (cve.2.1 / cve.2.2) * (cve.2.1 / cve.2.2)) pts).
Definition ss_of (pts : list (R * (R * R))) (s : R) : R :=
  sum_R (map (fun cve => ((cve.2.1 - s * cve.1) / cve.2.2)
                         * ((cve.2.1 - s * cve.1) / cve.2.2)) pts).

(** The weighted sum of squares of [(measured - s * simulated) / err]. *)
Definition weighted_ss (cal val err : list R) (s : R) : R :=
  ss_of (points cal val err) s.

(** The sum of [simulated * measured / err**2] over the sum of
    [(simulated / err)**2]. *)
Definition closed_form_scale (cal val err : list R) : R :=
  sum_cv (points cal val err) / sum_cc (points cal val err).

(** The measurements of a data set, with its three arrays. *)
Definition with_arrays (b1_offsets val err : list R)
    (measurements : gmap string (list R)) : gmap string (list R) :=
  <["b1_offsets" := b1_offsets]>
    (<["intensities" := val]> (<["intensities_err" := err]> measurements)).

(** *** A small data set, for the examples *)

Definition demo_ext : externals :=
  {| resonance_name := fun name => Ok name;
     xi_ratio := fun _ => Ok 1;
     calc_multiplet := fun _ => Ok [(0, 1)];
     to_full_name := fun name _ _ _ => name;
     calculate_shift_2st := fun _ _ _ _ _ => (0, 0);
     compute_liouvillian := fun _ => [];
     eig := fun _ => ([], CMatrix 0 0 (fun _ _ => C0));
     inv := fun m => m;
     raises := fun _ => None |}.

(** The same, with eigenvectors that [linalg.inv] finds singular. *)
Definition singular_ext : externals :=
  {| resonance_name := resonance_name demo_ext;
     xi_ratio := xi_ratio demo_ext;
     calc_multiplet := calc_multiplet demo_ext;
     to_full_name := to_full_name demo_ext;
     calculate_shift_2st := calculate_shift_2st demo_ext;
     compute_liouvillian := compute_liouvillian demo_ext;
     eig := eig demo_ext;
     inv := inv demo_ext;
     raises := fun c =>
       match c with
       | CallInv _ => Some (LinAlgError "singular matrix")
       | _ => None
       end |}.

Definition demo_names : names :=
  Names "pb" "kex_ab" "cs_a" "dw_ab" "lambda_a" "dlambda_ab" "rho_a".

Definition demo_profile : Profile :=
  {| profile_name := "G23N";
     b1_offsets := [-20000; 0; 50];
     val := [0.95; 0.5; 0.9];
     err := [1; 1; 1];
     h_larmor_frq := 600;
     temperature := 298;
     carrier := 0;
     b1_frq := 25;
     time_t1 := 0.4;
     experiment_name := Text "cest";
     on_resonance_filter := 0;
     cache := [];
     ppm_to_rads := 1;
     multiplet := [(0, 1)];
     map_names := demo_names |}.

Definition demo_args : sim_args :=
  {| pb := 0.05; kex_ab := 200; dw_i_ab := 2; rho_i_a := 1;
     lambda_i_a := 10; dlambda_i_ab := 0; cs_i_a := 0 |}.

Definition demo_params : gmap string R :=
  list_to_map
    [("pb", 0.05); ("kex_ab", 200); ("cs_a", 0); ("dw_ab", 2);
     ("lambda_a", 10); ("dlambda_ab", 0); ("rho_a", 1)].

(** One point on resonance, and one point far off resonance. *)
Definition one_point : Profile :=
  set_b1_offsets [50] (set_val [1] (set_err [1] demo_profile)).

Definition far_point : Profile :=
  set_b1_offsets [-20000] (set_val [1 - 0.05] (set_err [1] demo_profile)).

(** A far point whose measured intensity is zero, and a state B that holds
    the whole population. *)
Definition dark_point : Profile :=
  set_b1_offsets [-20000] (set_val [0] (set_err [1] demo_profile)).

(** Two points far off resonance, with different measured intensities. *)
Definition two_far_points : Profile :=
  set_b1_offsets [-20000; -30000]
    (set_val [1; 2] (set_err [1; 1] demo_profile)).

Definition all_b_args : sim_args :=
  {| pb := 1; kex_ab := 200; dw_i_ab := 2; rho_i_a := 1;
     lambda_i_a := 10; dlambda_i_ab := 0; cs_i_a := 0 |}.

Definition all_b_params : gmap string R :=
  list_to_map
    [("pb", 1); ("kex_ab", 200); ("cs_a", 0); ("dw_ab", 2);
     ("lambda_a", 10); ("dlambda_ab", 0); ("rho_a", 1)].

(** The demonstration Profile after two simulations: the store of its cache
    holds the results of both. *)
Definition warm_profile : Profile :=
  set_cache
    [(all_b_args, (_calculate_profile demo_ext demo_profile all_b_args).1);
     (demo_args, (_calculate_profile demo_ext demo_profile demo_args).1)]
    demo_profile.

Definition demo_details : gmap string setting :=
  list_to_map
    [("h_larmor_frq", Number 600); ("temperature", Number 298);
     ("carrier", Number 0); ("b1_frq", Number 25); ("time_t1", Number 0.4);
     ("experiment_name", Text "cest")].

(** *** [create_default_parameters] *)

(** One entry of [lmfit.Parameters]: what a tuple of [add_many] sets. *)
Record parameter : Type := MkParameter {
  p_value : R;
  p_vary : option bool;
  p_min : option R;
  p_max : option R;
  p_expr : option string
}.

(** [Parameters.add_many] of some tuples: the tuples are added in turn, a name
    that is already there is replaced. *)
Definition add_many (tuples : list (string * parameter))
    (parameters : gmap string parameter) : gmap string parameter :=
  foldl (fun ps np => <[np.1 := np.2]> ps) parameters tuples.

(** [Profile.create_default_parameters(self)]. *)
Definition create_default_parameters (self : Profile) : gmap string parameter :=
  let names := map_names self in
  add_many
    [(name_pb names, MkParameter 0.05 (Some true) (Some 0) (Some 1) None);
     (name_kex_ab names, MkParameter 200 (Some true) (Some 0) None None);
     (name_cs_i_a names, MkParameter 0 (Some false) None None None);
     (name_dw_i_ab names, MkParameter 0 (Some true) None None None);
     (name_lambda_i_a names, MkParameter 10 (Some true) (Some 0) None None);
     (name_dlambda_i_ab names, MkParameter 0 (Some true) None None None);
     (name_rho_i_a names, MkParameter 1 (Some true) (Some 0) None None)]
    ∅.

(** [params[name].value] for every name: what [calculate_profile] and
    [filter_points] read of the parameters. *)
Definition values_of (parameters : gmap string parameter) : gmap string R :=
  p_value <$> parameters.

(** The seven names of [self.map_names]. *)
Definition names_list (n : names) : list string :=
  [name_pb n; name_kex_ab n; name_cs_i_a n; name_dw_i_ab n;
   name_lambda_i_a n; name_dlambda_i_ab n; name_rho_i_a n].

(** The store of the cache agrees with the Profile: every stored result is
    what a call of [_calculate_profile] with its arguments returns now. *)
Definition cache_consistent (ext : externals) (p : Profile) : Prop :=
  Forall (fun kv => outcome ext (_calculate_profile ext p kv.1) = Ok kv.2)
    (cache p).

End Cest.

(** ** [chemex.reading] *)

Module Reading.

(** The name of a parameter: a tuple, taken by the text of its elements. *)
Definition name : Type := list string.

(** A data point, as far as this module uses it: the names that its methods
    [get_fitting_parameter_names] and [get_fixed_parameter_names] return
    and its method [filter]. *)
Record data_point : Type := DataPoint {
  fitting_parameter_names : gset name;
  fixed_parameter_names : gset name;
  point_filter : list R -> gmap name nat -> gmap name (option R) -> bool
}.

(** The order in which Python goes through a set is not specified: any
    listing of its elements without repetition. *)
Record set_order : Type := SetOrder {
  iter : gset name -> list name;
  iter_elements : forall s : gset name, iter s ≡ₚ elements s
}.

Definition elements_order : set_order :=
  {| iter := elements; iter_elements := fun s => reflexivity (elements s) |}.

(** [dict(pairs)]: a later pair replaces an earlier one with the same key. *)
Definition dict_of {V} (pairs : list (name * V)) : gmap name V :=
  foldl (fun d kv => <[kv.1 := kv.2]> d) ∅ pairs.

(** [create_fitting_parameters_array(data)]. *)
Definition create_fitting_parameters_array (order : set_order)
    (data : list data_point)
    : list R * gmap name nat * gmap name (option R) :=
  let sets :=
    foldl (fun fit_fix data_point =>
             (fit_fix.1 ∪ fitting_parameter_names data_point,
              fit_fix.2 ∪ fixed_parameter_names data_point))
      (∅, ∅) data in
  let parameters_to_fit : gset name := sets.1 in
  let parameters_to_fix : gset name := sets.2 in
  let par := replicate (size parameters_to_fit) 0 in
  let par_indexes :=
    dict_of (map (fun ix => (ix.2, ix.1))
               (enumerate (iter order parameters_to_fit))) in
  let default_val : option R := None in
  let parameters_to_fix := parameters_to_fix ∖ parameters_to_fit in
  let par_fixed :=
    dict_of (map (fun ix => (ix.2, default_val))
               (enumerate (iter order parameters_to_fix))) in
  (par, par_indexes, par_fixed).

(** [trim_datasets_using_par(data, par_indexes)]. *)
Definition trim_datasets_using_par (data : list data_point)
    (par_indexes : gmap name nat) : list data_point :=
  let parameters_to_fit : gset name := dom par_indexes in
  foldl (fun trimmed_data data_point =>
           if decide (fitting_parameter_names data_point ⊆ parameters_to_fit)
           then trimmed_data ++ [data_point]
           else trimmed_data)
    [] data.

(** [create_par_list_to_fit(par_filename, data)].  [read_par] reads a file;
    it is taken as given, and returns nothing when it exits. *)
Definition create_par_list_to_fit (order : set_order)
    (read_par : string -> list R -> gmap name nat -> gmap name (option R)
                -> option (list R * gmap name (option R)))
    (par_filename : string) (data : list data_point)
    : option (list R * gmap name nat * gmap name (option R) * list data_point) :=
  let created := create_fitting_parameters_array order data in
  let par := created.1.1 in
  let par_indexes := created.1.2 in
  let par_fixed := created.2 in
  let data := trim_datasets_using_par data par_indexes in
  read ← read_par par_filename par par_indexes par_fixed;
  let par := read.1 in
  let par_fixed := read.2 in
  let data :=
    List.filter (fun data_pt => negb (point_filter data_pt par par_indexes par_fixed))
      data in
  Some (par, par_indexes, par_fixed, data).

(** The names that the data points ask to fit, and to fix. *)
Definition names_to_fit (data : list data_point) : gset name :=
  ⋃ (map fitting_parameter_names data).
Definition names_to_fix (data : list data_point) : gset name :=
  ⋃ (map fixed_parameter_names data).

Section ParameterFile.

(** [chemex.parsing], which is not among the sources: the nuclei of an
    assignment such as [G23N-H], and the name of a group of nuclei. *)
Variable nucleus : Type.
Variable parse_assignment : string -> list nucleus.
Variable assignment_name : list nucleus -> string.

(** A row of the table that [genfromtxt] returns: its first column and the
    columns after it. *)
Definition row : Type := (string * list string)%type.

(** [line[index]]. *)
Definition cell (line : row) (index : nat) : string :=
  nth index (line.1 :: line.2) "".

(** The body of the loop of [read_parameter_file]: the parameters that one
    line adds, or nothing when the line makes the function exit. *)
Definition read_line (par_name : name) (line : row)
    : option (list (name * string)) :=
  if decide (line.1 ∈ ["Assignment"; "?-?"]) then Some []
  else
    let assignment := parse_assignment line.1 in
    if decide (length assignment = (length (line.1 :: line.2) - 1)%nat) then
      Some (map (fun ia =>
                   let name := assignment_name [ia.2] in
                   let full_par_name := par_name ++ [name] in
                   (full_par_name, cell line (S ia.1)))
              (enumerate assignment))
    else if decide (length (line.1 :: line.2) = 2%nat) then
      let name := assignment_name assignment in
      let full_par_name := par_name ++ [name] in
      Some [(full_par_name, cell line 1)]
    else None.

(** [read_parameter_file(filename, par_name)], from the table [raw_data]
    that [genfromtxt] has read from the file: the loop over its lines. *)
Definition read_parameter_file (raw_data : list row) (par_name : name)
    : option (list (name * string)) :=
  foldl (fun parameters line =>
           ps ← parameters; new ← read_line par_name line; Some (ps ++ new))
    (Some []) raw_data.

(** A heading of the table, which [read_parameter_file] passes over. *)
Definition is_header (line : row) : bool :=
  bool_decide (line.1 ∈ ["Assignment"; "?-?"]).

(** The rows that are not headings. *)
Definition data_rows (raw_data : list row) : list row :=
  List.filter (fun line => negb (is_header line)) raw_data.

(** Whether a row makes [read_parameter_file] exit: it is no heading, its
    nuclei are not as many as its values, and its values are not one. *)
Definition misfit (line : row) : Prop :=
  is_header line = false
  /\ length (parse_assignment line.1) <> length line.2
  /\ length line.2 <> 1%nat.

(** What [sp.genfromtxt(filename, dtype=None)] comes to.  The lines of an
    array of records are the records; the lines of an array of strings (a
    file of one line of text) are the strings, each of them the sequence of
    its characters. *)
Inductive loaded : Type :=
  | NoFile                     (* [IOError]: no such file, or an empty one *)
  | Failed (what : string)     (* another exception: nothing catches it *)
  | Scalar (line : row)        (* an array of rank 0: a file of one line *)
  | Lines (lines : list row).  (* an array of a higher rank, line by line *)

(** [raw_data] after the test of [raw_data.ndim]. *)
Definition lines_of (loaded_data : loaded) : option (list row) :=
  match loaded_data with
  | Scalar line => Some [line]
  | Lines lines => Some lines
  | NoFile | Failed _ => None
  end.

(** How a call of [read_parameter_file] ends. *)
Inductive ending : Type :=
  | Returns (parameters : list (name * string))
  | Exits
  | Raises (what : string).

(** [read_parameter_file(filename, par_name)], from the name of the file:
    [genfromtxt] reads it, and the loop goes over what it has read. *)
Definition read_parameter_file_from (genfromtxt : string -> loaded)
    (filename : string) (par_name : name) : ending :=
  match genfromtxt filename with
  | NoFile => Exits
  | Failed what => Raises what
  | Scalar line =>
      match read_parameter_file [line] par_name with
      | Some parameters => Returns parameters
      | None => Exits
      end
  | Lines lines =>
      match read_parameter_file lines par_name with
      | Some parameters => Returns parameters
      | None => Exits
      end
  end.

End ParameterFile.

Arguments read_line {nucleus} parse_assignment assignment_name par_name line.
Arguments read_parameter_file {nucleus} parse_assignment assignment_name
  raw_data par_name.
Arguments misfit {nucleus} parse_assignment line.
Arguments read_parameter_file_from {nucleus} parse_assignment assignment_name
  genfromtxt filename par_name.

End Reading.

(** * Properties *)

(** ** Matrices *)

Lemma zip_with_map_same {A B C D} (f : B -> C -> D) (g : A -> B) (h : A -> C)
    (l : list A) :
  zip_with f (map g l) (map h l) = map (fun x => f (g x) (h x)) l.
Proof. induction l as [|x l IH]; simpl; [reflexivity | now rewrite IH]. Qed.

Lemma madd_ix_select rows cols f g :
  madd (ix_select rows cols f) (ix_select rows cols g)
  = ix_select rows cols (fun i j => f i j + g i j).
Proof.
  unfold madd, ix_select. rewrite zip_with_map_same.
  apply map_ext; intros i. apply zip_with_map_same.
Qed.

Lemma mscale_ix_select rows cols f x :
  mscale (ix_select rows cols f) x = ix_select rows cols (fun i j => f i j * x).
Proof.
  unfold mscale, ix_select. rewrite map_map.
  apply map_ext; intros i. now rewrite map_map.
Qed.

Lemma msub_ix_select rows cols f g :
  msub (ix_select rows cols f) (ix_select rows cols g)
  = ix_select rows cols (fun i j => f i j - g i j).
Proof.
  unfold msub, ix_select. rewrite zip_with_map_same.
  apply map_ext; intros i. apply zip_with_map_same.
Qed.

Lemma ix_select_ext rows cols f g :
  (forall i j, f i j = g i j) ->
  ix_select rows cols f = ix_select rows cols g.
Proof.
  intros E. unfold ix_select.
  apply map_ext; intros i. apply map_ext; intros j. apply E.
Qed.

(** ** Complex numbers *)

Lemma C_ring_theory : ring_theory C0 Cone Cadd Cmul Csub Copp eq.
Proof.
  split; intros; try (destruct x as [x1 x2]); try (destruct y as [y1 y2]);
    try (destruct z as [z1 z2]);
    unfold Cadd, Cmul, Csub, Copp, C0, Cone, Re, Im; simpl; f_equal; ring.
Qed.

Add Ring C_ring : C_ring_theory.

Lemma Csum_app (l1 l2 : list C) : Csum (l1 ++ l2) = Cadd (Csum l1) (Csum l2).
Proof.
  unfold Csum. induction l1 as [|z l1 IH]; simpl; [ring|].
  rewrite IH. ring.
Qed.

Lemma Csum_below_S (n : nat) (f : nat -> C) :
  Csum_below (S n) f = Cadd (Csum_below n f) (f n).
Proof.
  unfold Csum_below. rewrite seq_S, map_app, Csum_app. simpl. ring.
Qed.

Lemma Csum_below_ext (n : nat) (f g : nat -> C) :
  (forall k, (k < n)%nat -> f k = g k) -> Csum_below n f = Csum_below n g.
Proof.
  induction n as [|n IH]; intros E; [reflexivity|].
  rewrite !Csum_below_S, IH, (E n) by (intros; try apply E; lia). reflexivity.
Qed.

Lemma Csum_below_add (n : nat) (f g : nat -> C) :
  Cadd (Csum_below n f) (Csum_below n g)
  = Csum_below n (fun k => Cadd (f k) (g k)).
Proof.
  induction n as [|n IH]; [unfold Csum_below; simpl; ring|].
  rewrite !Csum_below_S, <- IH. ring.
Qed.

Lemma Csum_below_mul_r (n : nat) (f : nat -> C) (z : C) :
  Cmul (Csum_below n f) z = Csum_below n (fun k => Cmul (f k) z).
Proof.
  induction n as [|n IH]; [unfold Csum_below; simpl; ring|].
  rewrite !Csum_below_S, <- IH. ring.
Qed.

(** A sum against one row of a diagonal picks one entry. *)
Lemma Csum_below_diag (n k : nat) (f d : nat -> C) :
  (k < n)%nat ->
  Csum_below n (fun l => Cmul (f l) (if decide (l = k) then d l else C0))
  = Cmul (f k) (d k).
Proof.
  induction n as [|n IH]; intros Hk; [lia|].
  rewrite Csum_below_S.
  destruct (decide (n = k)) as [->|Hne].
  - rewrite (Csum_below_ext k _ (fun _ => C0)).
    + assert (Hz : Csum_below k (fun _ => C0) = C0).
      { clear. induction k as [|k IH]; [reflexivity|].
        rewrite Csum_below_S, IH. ring. }
      rewrite Hz. ring.
    + intros l Hl. rewrite decide_False by lia. ring.
  - rewrite IH by lia. ring.
Qed.

Lemma Csum_below_nth (g : nat -> C) (l : list nat) :
  Csum_below (length l) (fun k => g (nth k l 0%nat)) = Csum (map g l).
Proof.
  induction l as [|i l IH] using rev_ind; [reflexivity|].
  rewrite length_app, Nat.add_1_r, Csum_below_S, map_app, Csum_app.
  rewrite nth_middle. simpl.
  rewrite <- IH. f_equal; [|ring].
  apply Csum_below_ext. intros k Hk. now rewrite app_nth1.
Qed.

(** The entry [0, 0] of [vr[ix_([2], sl2)] . diag(d) . vri[ix_(sl2, [2, 5])] . m]
    for a column [m = [[x], [y]]], as a sum over the selected modes. *)
Lemma propagation_entry (vr vri : cmatrix) (E : nat -> C) (sl2 : list nat)
    (x y : R) :
  centry
    (cdot (cdot (cdot (cix_ vr [2%nat] sl2) (cdiag (map E sl2)))
             (cix_ vri sl2 [2%nat; 5%nat]))
       (column2 x y)) 0 0
  = Csum (map (fun i =>
                 Cmul (Cmul (centry vr 2 i) (E i))
                   (Cadd (Cmul (centry vri i 2) (RtoC x))
                      (Cmul (centry vri i 5) (RtoC y))))
            sl2).
Proof.
  set (n := length sl2).
  assert (Hrow : forall k, (k < n)%nat ->
            centry (cdot (cix_ vr [2%nat] sl2) (cdiag (map E sl2))) 0 k
            = Cmul (centry vr 2 (nth k sl2 0%nat)) (E (nth k sl2 0%nat))).
  { intros k Hk. cbn [cdot centry cix_ cdiag ncols nth].
    rewrite (Csum_below_diag (length sl2) k
               (fun l => centry vr 2 (nth l sl2 0%nat))
               (fun l => nth l (map E sl2) C0)) by exact Hk.
    f_equal. rewrite (nth_indep _ C0 (E 0%nat)) by (rewrite length_map; exact Hk).
    apply map_nth. }
  assert (Hcol : forall c,
            centry (cdot (cdot (cix_ vr [2%nat] sl2) (cdiag (map E sl2)))
                      (cix_ vri sl2 [2%nat; 5%nat])) 0 c
            = Csum_below n (fun k =>
                Cmul (Cmul (centry vr 2 (nth k sl2 0%nat)) (E (nth k sl2 0%nat)))
                  (centry vri (nth k sl2 0%nat) (nth c [2%nat; 5%nat] 0%nat)))).
  { intros c.
    change (centry (cdot (cdot (cix_ vr [2%nat] sl2) (cdiag (map E sl2)))
                      (cix_ vri sl2 [2%nat; 5%nat])) 0 c)
      with (Csum_below (length (map E sl2)) (fun k =>
              Cmul (centry (cdot (cix_ vr [2%nat] sl2) (cdiag (map E sl2))) 0 k)
                (centry vri (nth k sl2 0%nat) (nth c [2%nat; 5%nat] 0%nat)))).
    rewrite length_map. fold n.
    apply Csum_below_ext. intros k Hk. now rewrite Hrow. }
  change (centry
            (cdot (cdot (cdot (cix_ vr [2%nat] sl2) (cdiag (map E sl2)))
                     (cix_ vri sl2 [2%nat; 5%nat]))
               (column2 x y)) 0 0)
    with (Cadd
            (Cmul (centry (cdot (cdot (cix_ vr [2%nat] sl2) (cdiag (map E sl2)))
                             (cix_ vri sl2 [2%nat; 5%nat])) 0 0) (RtoC x))
            (Cadd
               (Cmul (centry (cdot (cdot (cix_ vr [2%nat] sl2)
                                      (cdiag (map E sl2)))
                                (cix_ vri sl2 [2%nat; 5%nat])) 0 1) (RtoC y))
               C0)).
  rewrite !Hcol. cbn [nth].
  rewrite !Csum_below_mul_r.
  replace (Cadd
     (Csum_below n (fun k =>
        Cmul (Cmul (Cmul (centry vr 2 (nth k sl2 0%nat)) (E (nth k sl2 0%nat)))
                (centry vri (nth k sl2 0%nat) 2)) (RtoC x)))
     (Cadd
        (Csum_below n (fun k =>
           Cmul (Cmul (Cmul (centry vr 2 (nth k sl2 0%nat)) (E (nth k sl2 0%nat)))
                   (centry vri (nth k sl2 0%nat) 5)) (RtoC y)))
        C0))
    with (Cadd
     (Csum_below n (fun k =>
        Cmul (Cmul (Cmul (centry vr 2 (nth k sl2 0%nat)) (E (nth k sl2 0%nat)))
                (centry vri (nth k sl2 0%nat) 2)) (RtoC x)))
     (Csum_below n (fun k =>
           Cmul (Cmul (Cmul (centry vr 2 (nth k sl2 0%nat)) (E (nth k sl2 0%nat)))
                   (centry vri (nth k sl2 0%nat) 5)) (RtoC y))))
    by ring.
  rewrite Csum_below_add.
  rewrite <- (Csum_below_nth
                (fun i => Cmul (Cmul (centry vr 2 i) (E i))
                            (Cadd (Cmul (centry vri i 2) (RtoC x))
                               (Cmul (centry vri i 5) (RtoC y)))) sl2).
  fold n. apply Csum_below_ext. intros k _. ring.
Qed.

Module IxyzszFacts.
Import Ixyzsz.

Lemma kwarg_insert kw k x name :
  kwarg (<[k:=x]> kw) name = if decide (k = name) then x else kwarg kw name.
Proof.
  unfold kwarg. rewrite lookup_insert. destruct (decide (k = name)); reflexivity.
Qed.

Ltac unfold_mats :=
  unfold mat_r2_i_a, mat_r1_i_a, mat_r2a_i_a, mat_r1a_a, mat_omega_i_a, mat_j_a,
    mat_etaxy_i_a, mat_etaz_i_a, mat_r2_i_b, mat_r1_i_b, mat_r2a_i_b, mat_r1a_b,
    mat_omega_i_b, mat_j_b, mat_etaxy_i_b, mat_etaz_i_b, mat_omega1x_i,
    mat_omega1y_i, mat_kab, mat_kba, structural, mesh.

Lemma compute_liouvillian_entries ref kw :
  compute_liouvillian ref kw = entry_sum ref kw.
Proof.
  unfold compute_liouvillian, entry_sum. unfold_mats. cbv zeta.
  rewrite !mscale_ix_select, !madd_ix_select.
  apply ix_select_ext; intros i j.
  unfold sum_R, terms; cbn [map foldr weight ref_of]. ring.
Qed.

Lemma term_sum_entries ref kw : term_sum ref kw = entry_sum ref kw.
Proof.
  unfold term_sum, entry_sum, terms. cbn [map foldr]. unfold_mats.
  rewrite !mscale_ix_select, !madd_ix_select.
  apply ix_select_ext; intros i j.
  unfold sum_R; cbn [map foldr weight ref_of]. ring.
Qed.

(** Each weight is a polynomial of degree at most one in every single
    keyword argument. *)
Lemma weight_affine kw k x t :
  weight (<[k:=x]> kw) t
  = weight (<[k:=0]> kw) t
    + x * (weight (<[k:=1]> kw) t - weight (<[k:=0]> kw) t).
Proof.
  destruct t; unfold weight; rewrite !kwarg_insert;
    repeat (case_decide; simplify_eq); ring.
Qed.

Lemma sum_R_affine {A} (u v w : A -> R) x (l : list A) :
  (forall t, u t = v t + x * (w t - v t)) ->
  sum_R (map u l) = sum_R (map v l) + x * (sum_R (map w l) - sum_R (map v l)).
Proof.
  intros E. induction l as [|t l IH]; simpl; [ring|].
  rewrite IH, (E t). ring.
Qed.

Lemma kwarg_delete kw k name :
  kwarg (delete k kw) name = kwarg (<[k:=0]> kw) name.
Proof.
  unfold kwarg. rewrite lookup_delete, lookup_insert.
  case_decide; reflexivity.
Qed.

Lemma weight_delete kw k t : weight (delete k kw) t = weight (<[k:=0]> kw) t.
Proof. destruct t; unfold weight; now rewrite !kwarg_delete. Qed.

Lemma mesh_shape f :
  length (mesh f) = 12%nat /\ Forall (fun row => length row = 12%nat) (mesh f).
Proof.
  split; [reflexivity|].
  unfold mesh, ix_select. apply Forall_forall; intros row Hrow.
  apply list_elem_of_In, in_map_iff in Hrow as (i & <- & _). reflexivity.
Qed.

(** C1.  For every call, [compute_liouvillian] returns a 12x12 matrix, the
    sum over all twenty physical terms of (parameter value) times (that
    term's structural matrix), where the two exchange matrices are weighed
    by [k_AB = k_ex * pB] and [k_BA = k_ex * (1 - pB)].  A parameter left out
    of the call counts as [0.0]: leaving a name out and passing [0.0] for it
    give the same matrix.  In every single parameter the result is of
    degree at most one: the matrix at value [x] is the matrix at [0] plus
    [x] times the difference of the matrices at [1] and at [0]. *)
Theorem compute_liouvillian_term_sum (ref : ref_basis) (kw : gmap string R) :
  (length (compute_liouvillian ref kw) = 12%nat
   /\ Forall (fun row => length row = 12%nat) (compute_liouvillian ref kw))
  /\ compute_liouvillian ref kw = term_sum ref kw
  /\ weight kw T_kab = kwarg kw "kex_ab" * kwarg kw "pb"
  /\ weight kw T_kba = kwarg kw "kex_ab" * (1 - kwarg kw "pb")
  /\ (forall k : string,
        compute_liouvillian ref (delete k kw)
        = compute_liouvillian ref (<[k:=0]> kw))
  /\ (forall (k : string) (x : R),
        compute_liouvillian ref (<[k:=x]> kw)
        = (compute_liouvillian ref (<[k:=0]> kw)
           |+| (compute_liouvillian ref (<[k:=1]> kw)
               |-| compute_liouvillian ref (<[k:=0]> kw)) |*| x)%M).
Proof.
  split; [|split; [|split; [|split; [|split]]]].
  - rewrite compute_liouvillian_entries. apply mesh_shape.
  - now rewrite compute_liouvillian_entries, term_sum_entries.
  - reflexivity.
  - reflexivity.
  - intros k. rewrite !compute_liouvillian_entries. unfold entry_sum, mesh.
    apply ix_select_ext; intros i j. f_equal.
    apply map_ext; intros t. now rewrite weight_delete.
  - intros k x. rewrite !compute_liouvillian_entries. unfold entry_sum, mesh.
    rewrite msub_ix_select, mscale_ix_select, madd_ix_select.
    apply ix_select_ext; intros i j.
    rewrite (sum_R_affine _
               (fun t => weight (<[k:=0]> kw) t * ref_of ref t i j)
               (fun t => weight (<[k:=1]> kw) t * ref_of ref t i j) x).
    + ring.
    + intros t. rewrite (weight_affine kw k x t). ring.
Qed.

(** A reference basis whose matrices are all the identity: with
    [r2_i_a = 3] and [pb = 0.25], [kex_ab = 8], the top left entry is
    [3 + 8 * 0.25 + 8 * 0.75]. *)
Example compute_liouvillian_identity :
  let ident (i j : nat) := if decide (i = j) then 1 else 0 in
  let ref :=
    RefBasis ident ident ident ident ident ident ident ident ident ident
      ident ident ident ident ident ident ident ident ident ident in
  mentry
    (compute_liouvillian ref
       (list_to_map [("r2_i_a", 3); ("pb", 0.25); ("kex_ab", 8)]))
    0 0
  = 11.
Proof.
  cbv zeta. rewrite compute_liouvillian_entries.
  unfold entry_sum, mesh, ix_select, indexes, mentry, terms, sum_R, weight,
    kwarg.
  vm_compute. lra.
Qed.

End IxyzszFacts.

Module CestFacts.
Import Cest.

(** ** Boolean masks *)

Lemma mask_select_map {A} (P : A -> bool) (a : list A) :
  mask_select a (map P a) = List.filter P a.
Proof.
  induction a as [|x a IH]; simpl; [reflexivity|].
  destruct (P x); now rewrite IH.
Qed.

Lemma mask_select_zip {A B} (a : list A) (b : list B) (mask : list bool) :
  mask_select (zip a b) mask = zip (mask_select a mask) (mask_select b mask).
Proof.
  revert b mask; induction a as [|x a IH]; intros [|y b] [|m mask]; simpl;
    try reflexivity.
  - destruct m; simpl; [reflexivity | now destruct (mask_select a mask)].
  - destruct m; simpl; now rewrite IH.
Qed.

Lemma mask_select_map_fst {A B} (P : A -> bool) (a : list A) (b : list B) :
  length a = length b ->
  mask_select (zip a b) (map P a) = List.filter (fun ab => P ab.1) (zip a b).
Proof.
  revert b; induction a as [|x a IH]; intros [|y b] Hlen; simpl in *;
    try discriminate; [reflexivity|].
  destruct (P x); rewrite IH by lia; reflexivity.
Qed.

Lemma mask_select_length (a : list R) (mask : list bool) :
  (length (mask_select a mask) <= length a)%nat.
Proof.
  revert mask; induction a as [|x a IH]; intros [|b mask]; simpl; try lia.
  specialize (IH mask). destruct b; simpl; lia.
Qed.

Lemma mask_select_all_true (a : list R) (mask : list bool) :
  length a = length mask -> Forall (fun b => b = true) mask ->
  mask_select a mask = a.
Proof.
  revert mask; induction a as [|x a IH]; intros [|b mask] Hlen Hall;
    simpl in *; try discriminate; [reflexivity|].
  inversion Hall as [|? ? Hb Hrest]; subst. f_equal. apply IH; [lia | assumption].
Qed.

Lemma bool_index_all_true (a : list R) (mask : list bool) (kept : list R) :
  Forall (fun b => b = true) mask ->
  bool_index a mask = Ok kept -> kept = a.
Proof.
  unfold bool_index. intros Hall. case_decide; [|discriminate].
  intros [= <-]. now apply mask_select_all_true.
Qed.

Lemma bool_index_length (a : list R) (mask : list bool) (kept : list R) :
  bool_index a mask = Ok kept -> (length kept <= length a)%nat.
Proof.
  unfold bool_index. case_decide; [|discriminate].
  intros [= <-]. apply mask_select_length.
Qed.

(** ** [filter_points], step by step *)

Lemma filter_points_unfold (params : gmap string R) (p : Profile) :
  filter_points params p =
  match getitem params (name_cs_i_a (map_names p)) with
  | Err e => (Err e, p)
  | Ok cs =>
      let mask := filter_mask p cs in
      match bool_index (b1_offsets p) mask with
      | Err e => (Err e, p)
      | Ok k1 =>
          let p1 := set_b1_offsets k1 p in
          match bool_index (val p) mask with
          | Err e => (Err e, p1)
          | Ok k2 =>
              let p2 := set_val k2 p1 in
              match bool_index (err p) mask with
              | Err e => (Err e, p2)
              | Ok k3 => (Ok tt, set_err k3 p2)
              end
          end
      end
  end.
Proof.
  unfold filter_points, mbind, method_bind, this, raising, assign; simpl.
  destruct (getitem params _) as [cs|e]; [|reflexivity]; simpl.
  destruct (bool_index (b1_offsets p) _) as [k1|e]; [|reflexivity]; simpl.
  destruct (bool_index (val p) _) as [k2|e]; [|reflexivity]; simpl.
  destruct (bool_index (err p) _) as [k3|e]; reflexivity.
Qed.

Lemma bool_index_offsets (p : Profile) (cs : R) :
  bool_index (b1_offsets p) (filter_mask p cs)
  = Ok (List.filter (keeps p cs) (b1_offsets p)).
Proof.
  unfold bool_index, filter_mask. rewrite length_map.
  case_decide; [|congruence]. f_equal. apply mask_select_map.
Qed.

Lemma keeps_same_settings p q cs b1 :
  same_settings p q -> keeps q cs b1 = keeps p cs b1.
Proof.
  intros (Hc & Hp & Hf & _). unfold keeps, nu_offset. now rewrite Hc, Hp, Hf.
Qed.

(** What one call of [filter_points] does to the three arrays. *)
Lemma filter_points_effect (params : gmap string R) (p : Profile) :
  let p' := (filter_points params p).2 in
  same_settings p p'
  /\ (length (b1_offsets p') <= length (b1_offsets p))%nat
  /\ (length (val p') <= length (val p))%nat
  /\ (length (err p') <= length (err p))%nat
  /\ match getitem params (name_cs_i_a (map_names p)) with
     | Ok cs => b1_offsets p' = List.filter (keeps p cs) (b1_offsets p)
     | Err _ => p' = p
     end.
Proof.
  rewrite filter_points_unfold.
  destruct (getitem params _) as [cs|e]; simpl.
  2: { unfold same_settings. repeat split; reflexivity || lia. }
  rewrite bool_index_offsets.
  assert (Hk := filter_length (keeps p cs) (b1_offsets p)).
  destruct (bool_index (val p) _) as [k2|e2] eqn:E2; simpl.
  2: { unfold same_settings; simpl. repeat split; reflexivity || lia. }
  apply bool_index_length in E2.
  destruct (bool_index (err p) _) as [k3|e3] eqn:E3; simpl.
  2: { unfold same_settings; simpl. repeat split; reflexivity || lia. }
  apply bool_index_length in E3.
  unfold same_settings; simpl. repeat split; reflexivity || lia.
Qed.

(** Once every offset passes the test, a call changes none of the arrays. *)
Lemma filter_points_stable (params : gmap string R) (p : Profile) (cs : R) :
  getitem params (name_cs_i_a (map_names p)) = Ok cs ->
  Forall (fun b1 => keeps p cs b1 = true) (b1_offsets p) ->
  let p' := (filter_points params p).2 in
  b1_offsets p' = b1_offsets p /\ val p' = val p /\ err p' = err p.
Proof.
  intros Hcs Hall. rewrite filter_points_unfold, Hcs; simpl.
  assert (Hmask : Forall (fun b => b = true) (filter_mask p cs)).
  { unfold filter_mask. apply Forall_map. exact Hall. }
  destruct (bool_index (b1_offsets p) _) as [k1|e1] eqn:E1; simpl; [|tauto].
  apply (bool_index_all_true _ _ _ Hmask) in E1; subst k1.
  destruct (bool_index (val p) _) as [k2|e2] eqn:E2; simpl; [|tauto].
  apply (bool_index_all_true _ _ _ Hmask) in E2; subst k2.
  destruct (bool_index (err p) _) as [k3|e3] eqn:E3; simpl; [|tauto].
  apply (bool_index_all_true _ _ _ Hmask) in E3; subst k3. tauto.
Qed.

(** C6.  Filtering is idempotent.  For every Profile and every set of
    parameters, a second call of [filter_points] with the same parameters
    leaves the offsets, the values and the errors as the first call left
    them, and neither call lets any of the three arrays grow. *)
Theorem filter_points_idempotent (params : gmap string R) (p : Profile) :
  let p1 := (filter_points params p).2 in
  let p2 := (filter_points params p1).2 in
  (b1_offsets p2 = b1_offsets p1 /\ val p2 = val p1 /\ err p2 = err p1)
  /\ ((length (b1_offsets p1) <= length (b1_offsets p))%nat
      /\ (length (val p1) <= length (val p))%nat
      /\ (length (err p1) <= length (err p))%nat)
  /\ ((length (b1_offsets p2) <= length (b1_offsets p1))%nat
      /\ (length (val p2) <= length (val p1))%nat
      /\ (length (err p2) <= length (err p1))%nat).
Proof.
  intros p1 p2.
  destruct (filter_points_effect params p) as (Hset & Hb & Hv & He & Hfirst).
  destruct (filter_points_effect params p1) as (_ & Hb2 & Hv2 & He2 & _).
  fold p1 in Hset, Hb, Hv, He, Hfirst. fold p2 in Hb2, Hv2, He2.
  split; [|tauto].
  destruct (getitem params (name_cs_i_a (map_names p))) as [cs|e] eqn:Hcs.
  - apply (filter_points_stable params p1 cs).
    + destruct Hset as (_ & _ & _ & ->). exact Hcs.
    + rewrite Hfirst. apply Forall_forall; intros b1 Hin.
      apply list_elem_of_In, filter_In in Hin as [_ Hin].
      now rewrite (keeps_same_settings p p1).
  - subst p2. rewrite Hfirst.
    rewrite filter_points_unfold, Hcs. simpl. tauto.
Qed.

Lemma keeps_zero_width (p : Profile) (cs b1 : R) :
  on_resonance_filter p = 0 ->
  keeps p cs b1 = bool_decide (nu_offset p cs b1 <> 0).
Proof.
  intros H0. unfold keeps. rewrite H0.
  apply bool_decide_ext. split.
  - intros Hgt Hz. rewrite Hz, Rabs_R0 in Hgt. lra.
  - intros Hnz. apply Rabs_pos_lt in Hnz. lra.
Qed.

Ltac step_result H :=
  match type of H with
  | mbind _ ?r = Ok _ =>
      let E := fresh "E" in
      destruct r eqn:E; [cbn [mbind result_bind] in H | discriminate H]
  | result_bind _ _ _ ?r = Ok _ =>
      let E := fresh "E" in
      destruct r eqn:E; [cbn [mbind result_bind] in H | discriminate H]
  end.

Lemma init_fields ext name measurements exp_details p :
  __init__ ext name measurements exp_details = Ok p ->
  getitem measurements "b1_offsets" = Ok (b1_offsets p)
  /\ getitem measurements "intensities" = Ok (val p)
  /\ getitem measurements "intensities_err" = Ok (err p)
  /\ check_par_float exp_details "on_resonance_filter" (Some (Number 0))
     = Ok (on_resonance_filter p)
  /\ cache p = [].
Proof.
  unfold __init__. intros H. repeat step_result H.
  injection H as <-. simpl. tauto.
Qed.

(** C10.  Filtering at zero width.  For every Profile whose
    [on_resonance_filter] is [0.0], a point is kept exactly when its offset
    from the (exchange-uncorrected) resonance position is not zero: the
    test is a strict "greater than half the width".  So [filter_points]
    removes every point that sits exactly on resonance; with three arrays
    of one length the call succeeds and removes the offset, the value and
    the error of each such point together.  [0.0] is the width that
    [__init__] gives a Profile whose experiment does not set one. *)
Theorem filter_points_zero_width (params : gmap string R) (p : Profile)
    (cs : R) :
  on_resonance_filter p = 0 ->
  getitem params (name_cs_i_a (map_names p)) = Ok cs ->
  let p' := (filter_points params p).2 in
  (forall b1, keeps p cs b1 = true <-> Rabs (nu_offset p cs b1) > 0)
  /\ b1_offsets p'
     = List.filter (fun b1 => bool_decide (nu_offset p cs b1 <> 0)) (b1_offsets p)
  /\ Forall (fun b1 => nu_offset p cs b1 <> 0) (b1_offsets p')
  /\ (length (val p) = length (b1_offsets p) ->
      length (err p) = length (b1_offsets p) ->
      (filter_points params p).1 = Ok tt
      /\ zip (b1_offsets p') (zip (val p') (err p'))
         = List.filter (fun point => bool_decide (nu_offset p cs point.1 <> 0))
             (zip (b1_offsets p) (zip (val p) (err p))))
  /\ (forall ext name measurements exp_details p0,
        exp_details !! "on_resonance_filter" = None ->
        __init__ ext name measurements exp_details = Ok p0 ->
        on_resonance_filter p0 = 0).
Proof.
  intros H0 Hcs p'.
  assert (Hk : forall b1, keeps p cs b1 = bool_decide (nu_offset p cs b1 <> 0))
    by (intros b1; now apply keeps_zero_width).
  assert (Hb : b1_offsets p'
     = List.filter (fun b1 => bool_decide (nu_offset p cs b1 <> 0)) (b1_offsets p)).
  { destruct (filter_points_effect params p) as (_ & _ & _ & _ & Hf).
    rewrite Hcs in Hf. subst p'. rewrite Hf.
    apply filter_ext. exact Hk. }
  split; [|split; [|split; [|split]]].
  - intros b1. unfold keeps. rewrite H0, bool_decide_eq_true. split; lra.
  - exact Hb.
  - rewrite Hb. apply Forall_forall; intros b1 Hin.
    apply list_elem_of_In, filter_In in Hin as [_ Hin].
    now apply bool_decide_eq_true in Hin.
  - intros Hv He. subst p'.
    rewrite filter_points_unfold, Hcs. cbn zeta.
    unfold bool_index, filter_mask. rewrite !length_map.
    rewrite !decide_True by congruence. simpl.
    split; [reflexivity|].
    rewrite <- !mask_select_zip.
    rewrite mask_select_map_fst by (rewrite length_zip; lia).
    apply filter_ext. intros point. apply Hk.
  - intros ext name measurements exp_details p0 Hnone Hinit.
    apply init_fields in Hinit as (_ & _ & _ & Hf & _).
    unfold check_par_float, check_par in Hf. rewrite Hnone in Hf.
    simpl in Hf. congruence.
Qed.

(** ** The loops of [_calculate_profile] *)

Lemma for_loop_collect {A} (f : A -> traced R) (xs : list A) (acc : list R) :
  for_loop xs (fun profile x => magz_a ← f x; mret (profile ++ [magz_a])) acc
  = (acc ++ map (fun x => (f x).1) xs, concat (map (fun x => (f x).2) xs)).
Proof.
  revert acc; induction xs as [|x xs IH]; intros acc.
  - simpl. now rewrite app_nil_r.
  - cbn [for_loop]. unfold mbind at 1, traced_bind. rewrite IH.
    cbn [map concat]. unfold mbind, traced_bind, mret, traced_ret. cbn [fst snd].
    now rewrite app_nil_r, <- app_assoc.
Qed.

Lemma zip_map_map {A B D} (f : A -> B) (g : B -> D) (l : list A) :
  zip l (map g (map f l)) = map (fun x => (x, g (f x))) l.
Proof. induction l as [|x l IH]; simpl; [reflexivity | now rewrite IH]. Qed.

Lemma calculate_profile_points ext (p : Profile) (a : sim_args) :
  _calculate_profile ext p a
  = (map (fun b1 => (point_at ext p a b1).1) (b1_offsets p),
     concat (map (fun b1 => (point_at ext p a b1).2) (b1_offsets p))).
Proof.
  unfold _calculate_profile. cbv zeta.
  rewrite (for_loop_collect
             (fun bo => offset_magz ext p a _ _ _ bo.1 bo.2)).
  rewrite zip_map_map, !map_map. reflexivity.
Qed.

(** C8.  For every Profile (its offsets) and every set of arguments, the
    array that [_calculate_profile] returns is an array of reals with one
    intensity per offset, in the order of the offsets: its length is the
    number of offsets, and its entry at an index is the intensity computed
    for the offset at that index. *)
Theorem calculate_profile_one_per_offset ext (p : Profile) (a : sim_args) :
  let profile : list R := (_calculate_profile ext p a).1 in
  length profile = length (b1_offsets p)
  /\ profile = map (fun b1 => (point_at ext p a b1).1) (b1_offsets p)
  /\ (forall i : nat,
       profile !! i = (fun b1 => (point_at ext p a b1).1) <$> b1_offsets p !! i).
Proof.
  cbv zeta. rewrite calculate_profile_points. cbn [fst].
  split; [apply length_map | split; [reflexivity|]].
  intros i. apply list_lookup_fmap.
Qed.

(** C2.  Far off resonance.  For every offset at or below the sentinel
    [-10000], the simulated intensity at that offset is exactly [1 - pb],
    the entry of state A in the equilibrium magnetization.  No Liouvillian
    is built, diagonalized or inverted for that offset: the body of the
    loop makes no such call there, and the calls of a whole profile are
    those of its offsets.  The intensity depends on [pb] alone: any other
    relaxation rates, exchange rate, shift difference, mixing time,
    collaborators or neighbouring points give the same value. *)
Theorem far_off_resonance_intensity ext (p : Profile) (a : sim_args)
    (i : nat) (b1 : R) :
  b1_offsets p !! i = Some b1 ->
  b1 <= -10000 ->
  (_calculate_profile ext p a).1 !! i = Some (1 - pb a)
  /\ (forall domega_i_ab omega1x_i lambda_i_b omega_i_a,
       offset_magz ext p a domega_i_ab omega1x_i lambda_i_b b1 omega_i_a
       = (1 - pb a, []))
  /\ (_calculate_profile ext p a).2
     = concat (map (fun b1 => (point_at ext p a b1).2) (b1_offsets p))
  /\ (forall ext' (p' : Profile) (a' : sim_args),
       pb a' = pb a ->
       b1_offsets p' !! i = Some b1 ->
       (_calculate_profile ext' p' a').1 !! i
       = (_calculate_profile ext p a).1 !! i).
Proof.
  intros Hi Hfar.
  assert (Hpoint : forall ext' p' a', (point_at ext' p' a' b1).1 = 1 - pb a').
  { intros ext' p' a'. unfold point_at, offset_magz. cbv zeta.
    now rewrite decide_True by exact Hfar. }
  assert (Hat : forall ext' p' a',
             b1_offsets p' !! i = Some b1 ->
             (_calculate_profile ext' p' a').1 !! i = Some (1 - pb a')).
  { intros ext' p' a' Hi'. rewrite calculate_profile_points. cbn [fst].
    rewrite list_lookup_fmap, Hi'. simpl. now rewrite Hpoint. }
  split; [now apply Hat | split; [|split]].
  - intros. unfold offset_magz. now rewrite decide_True by exact Hfar.
  - now rewrite calculate_profile_points.
  - intros ext' p' a' Hpb Hi'. rewrite (Hat ext' p' a' Hi'), (Hat ext p a Hi).
    now rewrite Hpb.
Qed.

(** ** The propagation at one offset *)

Lemma enumerate_filter_from {A} (Q : A -> bool) (d : A) (l : list A) (k : nat) :
  map fst (List.filter (fun ix => Q ix.2) (zip (seq k (length l)) l))
  = List.filter (fun i => Q (nth (i - k) l d)) (seq k (length l)).
Proof.
  revert k; induction l as [|x l IH]; intros k; [reflexivity|].
  cbn [length seq zip zip_with List.filter snd].
  assert (Htail : List.filter (fun i => Q (nth (i - k) (x :: l) d))
                    (seq (S k) (length l))
                  = List.filter (fun i => Q (nth (i - S k) l d))
                      (seq (S k) (length l))).
  { apply filter_ext_in. intros i Hi. apply in_seq in Hi.
    replace (i - k)%nat with (S (i - S k)) by lia. reflexivity. }
  rewrite Htail, <- IH, Nat.sub_diag. cbn [nth].
  destruct (Q x); reflexivity.
Qed.

Lemma slow_modes_filter (s : list C) (omega1x_i : R) :
  slow_modes s omega1x_i
  = List.filter (fun i => is_slow omega1x_i (nth i s C0)) (seq 0 (length s)).
Proof.
  unfold slow_modes, enumerate.
  rewrite (enumerate_filter_from (is_slow omega1x_i) C0 s 0).
  apply filter_ext. intros i. now rewrite Nat.sub_0_r.
Qed.

Lemma slow_modes_spec (s : list C) (omega1x_i : R) (i : nat) :
  In i (slow_modes s omega1x_i)
  <-> (i < length s)%nat /\ Rabs (Im (nth i s C0)) < 0.9 * omega1x_i.
Proof.
  rewrite slow_modes_filter, filter_In, in_seq. unfold is_slow.
  rewrite bool_decide_eq_true.
  split; intros [H1 H2]; (split; [lia | exact H2]).
Qed.

Lemma slow_modes_NoDup (s : list C) (omega1x_i : R) :
  List.NoDup (slow_modes s omega1x_i).
Proof. rewrite slow_modes_filter. apply List.NoDup_filter, List.seq_NoDup. Qed.

Lemma for_loop_accumulate {A} (f : A -> traced R) (g : A -> R) (xs : list A)
    (acc : R) :
  (for_loop xs (fun magz_a x => magz_a_ ← f x; mret (magz_a + g x * magz_a_))
     acc).1
  = acc + sum_R (map (fun x => g x * (f x).1) xs).
Proof.
  revert acc; induction xs as [|x xs IH]; intros acc.
  - simpl. ring.
  - cbn [for_loop]. unfold mbind at 1, traced_bind. cbn [fst].
    rewrite IH. unfold mbind, traced_bind, mret, traced_ret, sum_R.
    cbn [fst map foldr]. ring.
Qed.

Lemma line_magz_propagated ext (p : Profile) (a : sim_args)
    (omega_i_a domega_i_ab omega1x_i lambda_i_b j : R) :
  let kw := line_kwargs a omega_i_a domega_i_ab omega1x_i lambda_i_b j in
  let liouvillian := compute_liouvillian ext kw in
  let s := (eig ext liouvillian).1 in
  let vr := (eig ext liouvillian).2 in
  line_magz ext p a omega_i_a domega_i_ab omega1x_i lambda_i_b
    (column2 (1 - pb a) (pb a)) j
  = (Re (propagated s vr (inv ext vr) (time_t1 p) (pb a)
           (slow_modes s omega1x_i)),
     [CallLiouvillian kw; CallEig liouvillian; CallInv vr]).
Proof.
  cbv zeta. unfold line_magz, logged, mbind, traced_bind, mret, traced_ret.
  cbn [fst snd app]. f_equal. f_equal.
  apply (propagation_entry _ _
           (fun i => Cexp (Cscale (nth i _ C0) (time_t1 p)))).
Qed.

(** C4.  The propagation step at an offset above the sentinel.  For every
    eigendecomposition that [eig] returns for the Liouvillian of a line,
    the eigenmodes that take part are exactly those whose eigenvalue has an
    imaginary part of magnitude strictly below [0.9] times the RF field
    strength [2 pi b1_frq], each of them once.  The line contributes the
    real part of the row of longitudinal state A of
    [V_obs . diag(exp(lambda * t)) . V_inv . m0] over those modes, with
    [t = time_t1] and [m0 = (1 - pb, pb)], and the intensity at the offset
    is the sum of these contributions, each weighed by the weight of its
    line in the multiplet. *)
Theorem slow_mode_propagation ext (p : Profile) (a : sim_args) (b1 : R) :
  -10000 < b1 ->
  let omega1x_i := two_pi * b1_frq p in
  let modes j := slow_modes (line_eig ext p a b1 j).1 omega1x_i in
  (forall (j : R) (i : nat),
     In i (modes j)
     <-> (i < length (line_eig ext p a b1 j).1)%nat
         /\ Rabs (Im (nth i (line_eig ext p a b1 j).1 C0)) < 0.9 * omega1x_i)
  /\ (forall j : R, List.NoDup (modes j))
  /\ (point_at ext p a b1).1
     = sum_R (map (fun jw =>
                     jw.2 * Re (propagated (line_eig ext p a b1 jw.1).1
                                  (line_eig ext p a b1 jw.1).2
                                  (line_inv ext p a b1 jw.1)
                                  (time_t1 p) (pb a) (modes jw.1)))
                (multiplet p)).
Proof.
  intros Hnear. cbv zeta.
  split; [|split].
  - intros j i. apply slow_modes_spec.
  - intros j. apply slow_modes_NoDup.
  - unfold point_at, offset_magz.
    rewrite decide_False by lra.
    rewrite (for_loop_accumulate
               (fun jw => line_magz ext p a (omega_i_a_at ext p a b1)
                            (dw_i_ab a * ppm_to_rads p) (two_pi * b1_frq p)
                            (lambda_i_a a + dlambda_i_ab a)
                            (column2 (1 - pb a) (pb a)) jw.1)
               (fun jw => jw.2)).
    rewrite Rplus_0_l. f_equal. apply map_ext. intros jw.
    now rewrite line_magz_propagated.
Qed.

Lemma slow_mode_propagation_demo :
  -10000 < 50
  /\ (point_at demo_ext demo_profile demo_args 50).1
     = sum_R (map (fun jw =>
                     jw.2 * Re (propagated
                                  (line_eig demo_ext demo_profile demo_args 50 jw.1).1
                                  (line_eig demo_ext demo_profile demo_args 50 jw.1).2
                                  (line_inv demo_ext demo_profile demo_args 50 jw.1)
                                  (time_t1 demo_profile) (pb demo_args)
                                  (slow_modes
                                     (line_eig demo_ext demo_profile demo_args 50 jw.1).1
                                     (two_pi * b1_frq demo_profile))))
                (multiplet demo_profile)).
Proof.
  split; [lra|].
  apply (slow_mode_propagation demo_ext demo_profile demo_args 50). lra.
Defined.

(** ** The frame of [calculate_profile] *)

Lemma first_raise_app ext (l1 l2 : list call) :
  first_raise ext (l1 ++ l2)
  = match first_raise ext l1 with
    | Some e => Some e
    | None => first_raise ext l2
    end.
Proof.
  induction l1 as [|c l1 IH]; simpl; [reflexivity|].
  destruct (raises ext c); [reflexivity | exact IH].
Qed.

Lemma first_raise_none ext (log : list call) :
  (forall c, raises ext c = None) -> first_raise ext log = None.
Proof.
  intros H. induction log as [|c log IH]; simpl; [reflexivity|].
  now rewrite H.
Qed.

(** With collaborators that never raise, a call returns what it computes. *)
Lemma outcome_no_raise {A} ext (m : traced A) :
  (forall c, raises ext c = None) -> outcome ext m = Ok m.1.
Proof. intros H. unfold outcome. now rewrite first_raise_none. Qed.

Lemma outcome_no_calls {A} ext (m : traced A) :
  m.2 = [] -> outcome ext m = Ok m.1.
Proof. intros H. unfold outcome. now rewrite H. Qed.

Lemma calculate_scale_set_cache (c : list (sim_args * list R)) (p : Profile)
    (cal : list R) :
  _calculate_scale (set_cache c p) cal = _calculate_scale p cal.
Proof. reflexivity. Qed.

Lemma calculate_profile_unfold ext (params : gmap string R)
    (b1_offsets_arg : option (list R)) (p : Profile) :
  calculate_profile ext params b1_offsets_arg p
  = match kwargs_of params (map_names p) with
    | Err e => (Err e, p)
    | Ok kwargs =>
        let rp := cached_calculate_profile ext kwargs p in
        match rp.1 with
        | Err e => (Err e, rp.2)
        | Ok values =>
            match _calculate_scale rp.2 values with
            | Err e => (Err e, rp.2)
            | Ok scale =>
                match b1_offsets_arg with
                | None => (Ok (arr_scale values scale), rp.2)
                | Some b1_offsets_new =>
                    let swapped := set_b1_offsets b1_offsets_new rp.2 in
                    match outcome ext (_calculate_profile ext swapped kwargs) with
                    | Err e => (Err e, swapped)
                    | Ok values =>
                        (Ok (arr_scale values scale),
                         set_b1_offsets (b1_offsets rp.2) swapped)
                    end
                end
            end
        end
    end.
Proof.
  unfold calculate_profile.
  unfold mbind, method_bind, mret, method_ret, attr, this, raising, assign.
  destruct (kwargs_of params (map_names p)) as [kwargs|e]; [|reflexivity].
  cbv zeta.
  destruct (cached_calculate_profile ext kwargs p) as [[values|e] p1];
    [|reflexivity].
  cbn [fst snd].
  destruct (_calculate_scale p1 values) as [scale|e]; [|reflexivity].
  destruct b1_offsets_arg as [b1_offsets_new|]; [|reflexivity].
  destruct (outcome ext (_calculate_profile ext _ kwargs)); reflexivity.
Qed.

Lemma cached_call_frame ext (kwargs : sim_args) (p : Profile) :
  exists c, (cached_calculate_profile ext kwargs p).2 = set_cache c p.
Proof.
  unfold cached_calculate_profile.
  destruct (cache_find kwargs (cache p)); [eexists; reflexivity|].
  destruct (outcome ext (_calculate_profile ext p kwargs));
    [eexists; reflexivity|].
  exists (cache p). now destruct p.
Qed.

Lemma calculate_profile_set_cache ext (c : list (sim_args * list R))
    (p : Profile) (a : sim_args) :
  _calculate_profile ext (set_cache c p) a = _calculate_profile ext p a.
Proof. reflexivity. Qed.

(** ** The scale and the residuals *)

Lemma broadcast_same_length (a b : list R) :
  length a = length b -> broadcast a b = Ok (a, b).
Proof. intros H. unfold broadcast. now rewrite decide_True. Qed.

Lemma arr_mul_same_length (a b : list R) :
  length a = length b -> arr_mul a b = Ok (zip_with Rmult a b).
Proof. intros H. unfold arr_mul. now rewrite broadcast_same_length. Qed.

Lemma arr_sub_same_length (a b : list R) :
  length a = length b -> arr_sub a b = Ok (zip_with Rminus a b).
Proof. intros H. unfold arr_sub. now rewrite broadcast_same_length. Qed.

Lemma arr_div_nonzero (a b : list R) :
  length a = length b -> Forall (fun y => y <> 0) b ->
  arr_div a b = Ok (zip_with Rdiv a b).
Proof.
  intros H Hnz. unfold arr_div. rewrite broadcast_same_length by exact H.
  cbn [mbind result_bind fst snd]. rewrite decide_False; [reflexivity|].
  intros Hin. rewrite Forall_forall in Hnz. now apply (Hnz 0 Hin).
Qed.

Lemma arr_sq_nonzero (b : list R) :
  Forall (fun y => y <> 0) b -> Forall (fun y => y <> 0) (arr_sq b).
Proof.
  intros H. unfold arr_sq. apply Forall_map.
  eapply Forall_impl; [exact H|]. simpl. intros y Hy. nra.
Qed.

Lemma fold_left_Rplus (l : list R) (x : R) :
  fold_left Rplus l x = x + sum_R l.
Proof.
  revert x; induction l as [|y l IH]; intros x; simpl; [ring|].
  rewrite IH. ring.
Qed.

Lemma py_sum_sum_R (l : list R) : py_sum l = sum_R l.
Proof. unfold py_sum. rewrite fold_left_Rplus. ring. Qed.

(** The arrays that [_calculate_scale] sums, point by point. *)
Lemma numerators_points (cal v e : list R) :
  zip_with Rdiv (zip_with Rmult cal v) (arr_sq e)
  = map (fun cve => cve.1 * cve.2.1 / (cve.2.2 * cve.2.2)) (points cal v e).
Proof.
  unfold points, arr_sq, sum_cv.
  revert v e; induction cal as [|c cal IH]; intros [|x v] [|y e]; simpl;
    try reflexivity.
  now rewrite IH.
Qed.

Lemma denominators_points (cal v e : list R) :
  length v = length e ->
  arr_sq (zip_with Rdiv cal e)
  = map (fun cve => (cve.1 / cve.2.2) * (cve.1 / cve.2.2)) (points cal v e).
Proof.
  unfold points, arr_sq.
  revert v e; induction cal as [|c cal IH]; intros [|x v] [|y e] Hlen;
    simpl in *; try reflexivity; try discriminate.
  rewrite (IH v e) by lia. reflexivity.
Qed.

Lemma sum_cc_nonneg (pts : list (R * (R * R))) : 0 <= sum_cc pts.
Proof.
  unfold sum_cc. induction pts as [|cve l IH]; simpl; [lra|]. nra.
Qed.

(** The sum of squares is a polynomial of degree two in the scale. *)
Lemma ss_quadratic (pts : list (R * (R * R))) (s : R) :
  Forall (fun cve => cve.2.2 <> 0) pts ->
  ss_of pts s = sum_cc pts * s * s - 2 * sum_cv pts * s + sum_vv pts.
Proof.
  unfold ss_of, sum_cc, sum_cv, sum_vv.
  induction 1 as [|[c [v e]] l He Hl IH]; simpl in *; [ring|].
  rewrite IH. field. exact He.
Qed.

Lemma sum_cc_pos (pts : list (R * (R * R))) :
  Forall (fun cve => cve.2.2 <> 0) pts ->
  Exists (fun cve => cve.1 <> 0) pts -> 0 < sum_cc pts.
Proof.
  induction 1 as [|[c [v e]] l He Hl IH]; intros Hex; [inversion Hex|].
  assert (Hl0 := sum_cc_nonneg l).
  unfold sum_cc in *; simpl in *.
  inversion Hex as [? ? Hc | ? ? Hrest]; subst; simpl in *.
  - assert (c / e <> 0).
    { unfold Rdiv. apply Rmult_integral_contrapositive_currified;
        [exact Hc | now apply Rinv_neq_0_compat]. }
    nra.
  - specialize (IH Hrest). nra.
Qed.

Lemma points_errors_nonzero (cal v e : list R) :
  Forall (fun y => y <> 0) e ->
  Forall (fun cve => cve.2.2 <> 0) (points cal v e).
Proof.
  intros He. unfold points.
  revert v e He; induction cal as [|c cal IH]; intros [|x v] [|y e] He;
    simpl; try constructor.
  - inversion He; assumption.
  - apply IH. inversion He; assumption.
Qed.

Lemma points_some_simulated (cal v e : list R) :
  length cal = length v -> length e = length v ->
  Exists (fun c => c <> 0) cal ->
  Exists (fun cve => cve.1 <> 0) (points cal v e).
Proof.
  unfold points.
  revert v e; induction cal as [|c cal IH]; intros [|x v] [|y e] Hc He Hex;
    simpl in *; try discriminate; [inversion Hex|].
  inversion Hex as [? ? H0 | ? ? Hrest]; subst.
  - now left.
  - right. apply IH; [lia | lia | assumption].
Qed.

(** With arrays of one length and errors that are not zero,
    [_calculate_scale] is one division of two sums. *)
Lemma calculate_scale_quotient (p : Profile) (cal : list R) :
  length cal = length (val p) ->
  length (err p) = length (val p) ->
  Forall (fun e => e <> 0) (err p) ->
  _calculate_scale p cal
  = div (sum_cv (points cal (val p) (err p)))
        (sum_cc (points cal (val p) (err p))).
Proof.
  intros Hc He Hnz. unfold _calculate_scale.
  rewrite arr_mul_same_length by exact Hc. cbn [mbind result_bind].
  rewrite (arr_div_nonzero (zip_with Rmult cal (val p)));
    [| unfold arr_sq; rewrite length_zip_with, length_map; lia
     | now apply arr_sq_nonzero].
  cbn [mbind result_bind].
  rewrite (arr_div_nonzero cal); [| lia | exact Hnz].
  cbn [mbind result_bind].
  rewrite !py_sum_sum_R, numerators_points.
  rewrite (denominators_points cal (val p) (err p)) by lia.
  reflexivity.
Qed.

(** At a solution of the normal equation the derivative of the sum of
    squares is zero. *)
Lemma ss_derivative_zero (pts : list (R * (R * R))) (f : R) :
  Forall (fun cve => cve.2.2 <> 0) pts ->
  sum_cc pts * f = sum_cv pts ->
  derivable_pt_lim (ss_of pts) f 0.
Proof.
  intros Hnz Hnormal eps Heps.
  assert (HA := sum_cc_nonneg pts).
  assert (Hd : 0 < eps / (sum_cc pts + 1)) by (apply Rdiv_lt_0_compat; lra).
  exists (mkposreal _ Hd). cbn [pos]. intros h Hh Hlt.
  rewrite !(ss_quadratic pts) by exact Hnz.
  replace ((sum_cc pts * (f + h) * (f + h) - 2 * sum_cv pts * (f + h)
            + sum_vv pts
            - (sum_cc pts * f * f - 2 * sum_cv pts * f + sum_vv pts)) / h - 0)
    with (sum_cc pts * h) by (rewrite <- Hnormal; field; exact Hh).
  rewrite Rabs_mult, (Rabs_pos_eq (sum_cc pts)) by exact HA.
  assert (Hle : sum_cc pts * Rabs h <= sum_cc pts * (eps / (sum_cc pts + 1))).
  { apply Rmult_le_compat_l; lra. }
  assert (Hlt' : sum_cc pts * (eps / (sum_cc pts + 1)) < eps).
  { unfold Rdiv. rewrite <- Rmult_assoc.
    apply (Rmult_lt_reg_r (sum_cc pts + 1)); [lra|].
    rewrite Rmult_assoc, Rinv_l by lra. nra. }
  lra.
Qed.

Lemma ss_gap (pts : list (R * (R * R))) (f s : R) :
  Forall (fun cve => cve.2.2 <> 0) pts ->
  sum_cc pts * f = sum_cv pts ->
  ss_of pts s - ss_of pts f = sum_cc pts * ((s - f) * (s - f)).
Proof.
  intros Hnz Hnormal. rewrite !(ss_quadratic pts) by exact Hnz.
  rewrite <- Hnormal. ring.
Qed.

(** C3, as the code has it.  For a simulated and a measured array of one
    length, with errors that are not zero and a simulated value that is not
    zero, [_calculate_scale] returns the sum of
    [simulated * measured / err**2] divided by the sum of
    [(simulated / err)**2].  That value minimizes the weighted sum of
    squares of [(measured - scale * simulated) / err]: the derivative of the
    sum with respect to the scale is zero there, no scale gives a smaller
    sum, and every other scale gives a larger one. *)
Theorem calculate_scale_minimizes (p : Profile) (cal : list R) :
  length cal = length (val p) ->
  length (err p) = length (val p) ->
  Forall (fun e => e <> 0) (err p) ->
  Exists (fun c => c <> 0) cal ->
  exists scale : R,
    _calculate_scale p cal = Ok scale
    /\ scale = closed_form_scale cal (val p) (err p)
    /\ derivable_pt_lim (weighted_ss cal (val p) (err p)) scale 0
    /\ (forall s : R,
         weighted_ss cal (val p) (err p) scale
         <= weighted_ss cal (val p) (err p) s)
    /\ (forall s : R,
         s <> scale ->
         weighted_ss cal (val p) (err p) scale
         < weighted_ss cal (val p) (err p) s).
Proof.
  intros Hc He Hnz Hex.
  set (pts := points cal (val p) (err p)).
  assert (Hpts : Forall (fun cve => cve.2.2 <> 0) pts)
    by now apply points_errors_nonzero.
  assert (Hpos : 0 < sum_cc pts)
    by (apply sum_cc_pos; [exact Hpts | now apply points_some_simulated]).
  assert (Hnormal : sum_cc pts * (sum_cv pts / sum_cc pts) = sum_cv pts)
    by (field; lra).
  exists (sum_cv pts / sum_cc pts). split; [|split; [|split; [|split]]].
  - rewrite calculate_scale_quotient by assumption. fold pts.
    unfold div. rewrite decide_False by lra. reflexivity.
  - reflexivity.
  - unfold weighted_ss. fold pts. now apply ss_derivative_zero.
  - intros s. unfold weighted_ss. fold pts.
    assert (Hgap := ss_gap pts _ s Hpts Hnormal).
    set (d := s - sum_cv pts / sum_cc pts) in *.
    assert (0 <= d * d) by nra.
    nra.
  - intros s Hs. unfold weighted_ss. fold pts.
    assert (Hgap := ss_gap pts _ s Hpts Hnormal).
    assert (Hd : s - sum_cv pts / sum_cc pts <> 0) by lra.
    set (d := s - sum_cv pts / sum_cc pts) in *.
    assert (0 < d * d) by nra.
    nra.
Qed.

Lemma sum_cc_all_zero (cal v e : list R) :
  Forall (fun c => c = 0) cal -> sum_cc (points cal v e) = 0.
Proof.
  unfold sum_cc, points.
  revert v e; induction cal as [|c cal IH]; intros [|x v] [|y e] Hz; simpl;
    try reflexivity.
  inversion Hz as [|? ? Hc Hrest]; subst. rewrite IH by assumption.
  unfold Rdiv. ring.
Qed.

(** A simulated profile that is zero throughout has no scale. *)
Lemma calculate_scale_all_zero (p : Profile) (cal : list R) :
  length cal = length (val p) ->
  length (err p) = length (val p) ->
  Forall (fun e => e <> 0) (err p) ->
  Forall (fun c => c = 0) cal ->
  _calculate_scale p cal = Err NotFinite.
Proof.
  intros Hc He Hnz Hz. rewrite calculate_scale_quotient by assumption.
  unfold div. rewrite decide_True; [reflexivity | now apply sum_cc_all_zero].
Qed.

(** C3, as stated, fails for a simulated profile that is zero: one point,
    simulated [0.0], measured [1.0], error [1.0].  The quotient is
    [0.0 / 0.0]. *)
Lemma zero_simulated_has_no_scale :
  length [0] = length (val one_point)
  /\ Forall (fun e => e <> 0) (err one_point)
  /\ _calculate_scale one_point [0] = Err NotFinite.
Proof.
  split; [reflexivity | split].
  - repeat constructor. simpl. lra.
  - apply calculate_scale_all_zero; try reflexivity.
    + repeat constructor. simpl. lra.
    + repeat constructor.
Qed.

Lemma calculate_scale_minimizes_demo :
  exists scale : R,
    _calculate_scale demo_profile [1; 1; 1] = Ok scale
    /\ scale = closed_form_scale [1; 1; 1] (val demo_profile) (err demo_profile)
    /\ derivable_pt_lim
         (weighted_ss [1; 1; 1] (val demo_profile) (err demo_profile)) scale 0.
Proof.
  destruct (calculate_scale_minimizes demo_profile [1; 1; 1])
    as (scale & H1 & H2 & H3 & _).
  - reflexivity.
  - reflexivity.
  - repeat constructor; simpl; lra.
  - left. lra.
  - exists scale. tauto.
Defined.

(** [calculate_residuals], once the arguments are found and the simulation
    has returned. *)
Lemma calculate_residuals_result ext (params : gmap string R) (p : Profile)
    (kwargs : sim_args) (values : list R) :
  kwargs_of params (map_names p) = Ok kwargs ->
  (cached_calculate_profile ext kwargs p).1 = Ok values ->
  (calculate_residuals ext params p).1
  = (scale ← _calculate_scale p values;
     differences ← arr_sub (val p) (arr_scale values scale);
     arr_div differences (err p)).
Proof.
  intros Hk Hv.
  unfold calculate_residuals.
  unfold mbind at 1, method_bind.
  rewrite calculate_profile_unfold, Hk. cbv zeta. rewrite Hv.
  destruct (cached_call_frame ext kwargs p) as [c ->].
  rewrite calculate_scale_set_cache.
  destruct (_calculate_scale p values) as [scale|e];
    cbn [mbind result_bind]; [|reflexivity].
  unfold mbind at 1 2, method_bind, this, raising. cbn [val err set_cache].
  destruct (arr_sub (val p) (arr_scale values scale)) as [d|e];
    cbn [mbind result_bind fst]; [|reflexivity].
  destruct (arr_div d (err p)); reflexivity.
Qed.

Lemma sum_cv_self (v e : list R) :
  Forall (fun y => y <> 0) e ->
  sum_cv (points v v e) = sum_cc (points v v e).
Proof.
  unfold sum_cv, sum_cc, points.
  revert e; induction v as [|x v IH]; intros [|y e] He; simpl;
    try reflexivity.
  inversion He as [|? ? Hy Hrest]; subst. rewrite IH by assumption.
  f_equal. field. exact Hy.
Qed.

Lemma points_some_measured (v e : list R) :
  length e = length v ->
  Exists (fun x => x <> 0) v ->
  Exists (fun cve => cve.1 <> 0) (points v v e).
Proof. intros He. now apply points_some_simulated. Qed.

Lemma residuals_of_self (v e : list R) :
  length e = length v ->
  zip_with Rdiv (zip_with Rminus v (arr_scale v 1)) e = map (fun _ => 0) v.
Proof.
  unfold arr_scale.
  revert e; induction v as [|x v IH]; intros [|y e] He; simpl in *;
    try discriminate; [reflexivity|].
  rewrite IH by lia. f_equal. unfold Rdiv. ring.
Qed.

(** C5, as the code has it.  Round trip.  Take a Profile whose three arrays
    have one length, whose errors are not zero and whose measured values are
    not all zero.  If the simulation returns exactly the measured values of
    the Profile, the scale is [1] and every residual
    [(measured - scale * simulated) / err] is [0]. *)
Theorem residuals_round_trip ext (params : gmap string R) (p : Profile)
    (kwargs : sim_args) :
  kwargs_of params (map_names p) = Ok kwargs ->
  (cached_calculate_profile ext kwargs p).1 = Ok (val p) ->
  length (err p) = length (val p) ->
  Forall (fun e => e <> 0) (err p) ->
  Exists (fun v => v <> 0) (val p) ->
  _calculate_scale p (val p) = Ok 1
  /\ (calculate_residuals ext params p).1 = Ok (map (fun _ => 0) (val p)).
Proof.
  intros Hk Hsim He Hnz Hex.
  assert (Hscale : _calculate_scale p (val p) = Ok 1).
  { rewrite calculate_scale_quotient by (reflexivity || assumption).
    rewrite sum_cv_self by exact Hnz.
    assert (Hpos : 0 < sum_cc (points (val p) (val p) (err p))).
    { apply sum_cc_pos; [now apply points_errors_nonzero|].
      now apply points_some_measured. }
    unfold div. rewrite decide_False by lra. f_equal. field. lra. }
  split; [exact Hscale|].
  rewrite (calculate_residuals_result ext params p kwargs (val p) Hk Hsim).
  rewrite Hscale. cbn [mbind result_bind].
  rewrite arr_sub_same_length by (unfold arr_scale; now rewrite length_map).
  cbn [mbind result_bind].
  rewrite arr_div_nonzero;
    [| unfold arr_scale; rewrite length_zip_with, length_map; lia | exact Hnz].
  now rewrite residuals_of_self.
Qed.

Lemma simulated_far_point (p : Profile) (a : sim_args) (b1 : R) :
  b1_offsets p = [b1] -> b1 <= -10000 -> cache p = [] ->
  (cached_calculate_profile demo_ext a p).1 = Ok [1 - pb a].
Proof.
  intros Hb Hfar Hc. unfold cached_calculate_profile. rewrite Hc. cbn.
  rewrite calculate_profile_points, Hb. cbn [fst map].
  unfold point_at, offset_magz. cbv zeta.
  now rewrite decide_True by exact Hfar.
Qed.

Lemma residuals_round_trip_demo :
  _calculate_scale far_point (val far_point) = Ok 1
  /\ (calculate_residuals demo_ext demo_params far_point).1 = Ok [0].
Proof.
  apply (residuals_round_trip demo_ext demo_params far_point demo_args).
  - reflexivity.
  - apply (simulated_far_point far_point demo_args (-20000));
      [reflexivity | lra | reflexivity].
  - reflexivity.
  - repeat constructor; simpl; lra.
  - left. lra.
Defined.

(** C5, as stated, fails for a Profile whose measured values are all zero:
    one far point of measured intensity [0.0], simulated with [pb = 1.0].
    The simulation returns the measured values, the scale is [0.0 / 0.0]
    and the residual is not a number. *)
Lemma dark_point_has_no_scale :
  (cached_calculate_profile demo_ext all_b_args dark_point).1
  = Ok (val dark_point)
  /\ _calculate_scale dark_point (val dark_point) = Err NotFinite
  /\ (calculate_residuals demo_ext all_b_params dark_point).1 = Err NotFinite.
Proof.
  assert (Hsim : (cached_calculate_profile demo_ext all_b_args dark_point).1
                 = Ok (val dark_point)).
  { rewrite (simulated_far_point dark_point all_b_args (-20000));
      [| reflexivity | lra | reflexivity].
    simpl. do 2 f_equal. lra. }
  assert (Hscale : _calculate_scale dark_point (val dark_point) = Err NotFinite).
  { apply calculate_scale_all_zero; try reflexivity;
      repeat constructor; simpl; lra. }
  split; [exact Hsim | split; [exact Hscale|]].
  rewrite (calculate_residuals_result demo_ext all_b_params dark_point
             all_b_args (val dark_point) eq_refl Hsim).
  now rewrite Hscale.
Qed.

(** C9.  [calculate_profile] does not leave [self.b1_offsets] as it found
    it when the simulation at the alternative offsets raises.  A Profile
    with one point far off resonance is asked for its profile at the offset
    [0.0], where [linalg.inv] finds the eigenvectors singular.  The call
    raises, and [self.b1_offsets] is [[0.0]], not [[-20000.0]]: the
    assignment that puts the offsets back has not run. *)
Lemma failed_simulation_keeps_alternative_offsets :
  (calculate_profile singular_ext demo_params (Some [0]) far_point).1
  = Err (LinAlgError "singular matrix")
  /\ b1_offsets (calculate_profile singular_ext demo_params (Some [0])
                   far_point).2
     = [0]
  /\ b1_offsets far_point = [-20000]
  /\ [0] <> [-20000].
Proof.
  rewrite calculate_profile_unfold.
  change (kwargs_of demo_params (map_names far_point)) with (Ok demo_args).
  cbv beta iota zeta.
  assert (Hsim : cached_calculate_profile singular_ext demo_args far_point
                 = (Ok [1 - pb demo_args],
                    set_cache [(demo_args, [1 - pb demo_args])] far_point)).
  { unfold cached_calculate_profile. cbn [cache_find cache far_point
      set_b1_offsets set_val set_err demo_profile].
    rewrite outcome_no_calls.
    - rewrite calculate_profile_points. cbn [fst b1_offsets far_point
        set_b1_offsets map].
      unfold point_at, offset_magz. cbv zeta.
      rewrite decide_True by lra. reflexivity.
    - rewrite calculate_profile_points. cbn [snd b1_offsets far_point
        set_b1_offsets map concat].
      unfold point_at, offset_magz. cbv zeta.
      rewrite decide_True by lra. reflexivity. }
  rewrite Hsim. cbn [fst snd]. rewrite calculate_scale_set_cache.
  assert (Hscale : exists scale,
             _calculate_scale far_point [1 - pb demo_args] = Ok scale).
  { rewrite calculate_scale_quotient;
      [| reflexivity | reflexivity | repeat constructor; simpl; lra].
    unfold div, sum_cc, sum_cv, points, sum_R. cbn.
    rewrite decide_False by lra. eexists. reflexivity. }
  destruct Hscale as [scale ->].
  assert (Hraise : outcome singular_ext
                     (_calculate_profile singular_ext
                        (set_b1_offsets [0]
                           (set_cache [(demo_args, [1 - pb demo_args])]
                              far_point))
                        demo_args)
                   = Err (LinAlgError "singular matrix")).
  { rewrite calculate_profile_points. unfold outcome.
    cbn [snd b1_offsets set_b1_offsets map concat].
    unfold point_at, offset_magz. cbv zeta.
    rewrite decide_False by lra. reflexivity. }
  rewrite Hraise. cbn [fst snd b1_offsets set_b1_offsets].
  repeat split; try reflexivity.
  intros [= H]. lra.
Qed.

(** ** Construction *)

Lemma getitem_with_arrays b1 v e (m : gmap string (list R)) :
  getitem (with_arrays b1 v e m) "b1_offsets" = Ok b1
  /\ getitem (with_arrays b1 v e m) "intensities" = Ok v
  /\ getitem (with_arrays b1 v e m) "intensities_err" = Ok e.
Proof.
  unfold getitem, with_arrays. repeat split.
  - now rewrite lookup_insert_eq.
  - rewrite lookup_insert_ne by discriminate. now rewrite lookup_insert_eq.
  - rewrite !lookup_insert_ne by discriminate. now rewrite lookup_insert_eq.
Qed.

(** The arrays take no part in the construction beyond being stored. *)
Lemma init_with_arrays ext name m d b1 v e :
  __init__ ext name (with_arrays b1 v e m) d
  = p ← __init__ ext name (with_arrays [] [] [] m) d;
    Ok (set_err e (set_val v (set_b1_offsets b1 p))).
Proof.
  unfold __init__.
  destruct (getitem_with_arrays b1 v e m) as (-> & -> & ->).
  destruct (getitem_with_arrays [] [] [] m) as (-> & -> & ->).
  cbn [mbind result_bind].
  repeat match goal with
         | |- context [check_par_float d ?k ?dflt] =>
             destruct (check_par_float d k dflt); cbn [mbind result_bind];
             [|reflexivity]
         | |- context [check_par d ?k ?dflt] =>
             destruct (check_par d k dflt); cbn [mbind result_bind];
             [|reflexivity]
         end.
  destruct (resonance_name ext name); cbn [mbind result_bind]; [|reflexivity].
  destruct (xi_ratio ext name); cbn [mbind result_bind]; [|reflexivity].
  destruct (calc_multiplet ext name); reflexivity.
Qed.

(** C7, as the code has it.  [__init__] does not compare the lengths of the
    offsets, the measured values and the errors.  Construction goes the
    same way for any three arrays: if it returns for some, it returns for
    all others, with a Profile that differs in the three arrays only; if it
    raises, it raises the same error for all others.  When it returns, the
    Profile holds the three arrays as they came, whatever their lengths. *)
Theorem init_ignores_lengths ext (name : string)
    (m : gmap string (list R)) (d : gmap string setting)
    (b1 v e b1' v' e' : list R) :
  __init__ ext name (with_arrays b1 v e m) d
  = match __init__ ext name (with_arrays b1' v' e' m) d with
    | Ok p' => Ok (set_err e (set_val v (set_b1_offsets b1 p')))
    | Err x => Err x
    end
  /\ match __init__ ext name (with_arrays b1 v e m) d with
     | Ok p => b1_offsets p = b1 /\ val p = v /\ err p = e
     | Err _ => True
     end.
Proof.
  rewrite (init_with_arrays ext name m d b1 v e).
  rewrite (init_with_arrays ext name m d b1' v' e').
  destruct (__init__ ext name (with_arrays [] [] [] m) d) as [p|x];
    cbn [mbind result_bind]; [|tauto].
  split; [reflexivity|]. simpl. tauto.
Qed.

(** Offsets, values and errors of three different lengths make a Profile. *)
Lemma init_accepts_mismatched_lengths :
  exists p : Profile,
    __init__ demo_ext "G23N" (with_arrays [0; 50] [1] [] ∅) demo_details = Ok p
    /\ length (b1_offsets p) = 2%nat
    /\ length (val p) = 1%nat
    /\ length (err p) = 0%nat.
Proof. eexists. split; [reflexivity|]. simpl. tauto. Qed.

(** ** Examples *)

Lemma nu_offset_demo (b1 : R) : nu_offset demo_profile 0 b1 = - b1.
Proof. unfold nu_offset. simpl. field. apply PI_neq0. Qed.

(** The demonstration profile loses its point on resonance. *)
Example filter_points_demo :
  b1_offsets (filter_points demo_params demo_profile).2 = [-20000; 50].
Proof.
  destruct (filter_points_effect demo_params demo_profile) as (_ & _ & _ & _ & H).
  change (getitem demo_params (name_cs_i_a (map_names demo_profile)))
    with (@Ok R 0) in H.
  rewrite H. cbn [b1_offsets demo_profile List.filter].
  rewrite !keeps_zero_width by reflexivity. rewrite !nu_offset_demo.
  rewrite (bool_decide_true (- -20000 <> 0)) by lra.
  rewrite (bool_decide_false (- 0 <> 0)) by lra.
  rewrite (bool_decide_true (- 50 <> 0)) by lra.
  reflexivity.
Qed.

(** A flat simulated profile is scaled to the mean of the measured values. *)
Example calculate_scale_demo :
  _calculate_scale demo_profile [1; 1; 1] = Ok ((0.95 + 0.5 + 0.9) / 3).
Proof.
  rewrite calculate_scale_quotient;
    [| reflexivity | reflexivity | repeat constructor; simpl; lra].
  unfold div, sum_cc, sum_cv, points, sum_R. cbn.
  rewrite decide_False by lra. f_equal. lra.
Qed.

(** Of three eigenvalues, the one that oscillates at [200] against a field
    of [100] is left out. *)
Example slow_modes_demo :
  slow_modes [(-1, 0); (-2, 200); (-3, -10)] 100 = [0; 2]%nat.
Proof.
  unfold slow_modes, enumerate, is_slow. cbn [length seq zip zip_with List.filter snd Im].
  rewrite (bool_decide_true (Rabs 0 < 0.9 * 100))
    by (apply Rabs_def1; lra).
  rewrite (bool_decide_false (Rabs 200 < 0.9 * 100))
    by (intros H; apply Rabs_def2 in H; lra).
  rewrite (bool_decide_true (Rabs (-10) < 0.9 * 100))
    by (apply Rabs_def1; lra).
  reflexivity.
Qed.

Lemma filter_points_zero_width_demo :
  on_resonance_filter demo_profile = 0
  /\ getitem demo_params (name_cs_i_a (map_names demo_profile)) = Ok 0
  /\ b1_offsets (filter_points demo_params demo_profile).2
     = List.filter (fun b1 => bool_decide (nu_offset demo_profile 0 b1 <> 0))
         (b1_offsets demo_profile).
Proof.
  split; [reflexivity | split; [reflexivity|]].
  apply (filter_points_zero_width demo_params demo_profile 0); reflexivity.
Defined.

Lemma far_off_resonance_demo :
  b1_offsets demo_profile !! 0%nat = Some (-20000)
  /\ -20000 <= -10000
  /\ (_calculate_profile demo_ext demo_profile demo_args).1 !! 0%nat
     = Some (1 - 0.05).
Proof.
  split; [reflexivity | split; [lra|]].
  apply (far_off_resonance_intensity demo_ext demo_profile demo_args 0 (-20000));
    [reflexivity | lra].
Defined.

End CestFacts.

(** * Further properties of [ixyzsz.py] *)

Module IxyzszMore.
Import Ixyzsz IxyzszFacts.

(** X17.  The equilibrium magnetization.  [compute_equilibrium_2izsz]
    returns a column of twelve entries that holds [1 - pb] at the place of
    2IzSz of state A (row 5) and [pb] at that of state B (row 11), and zero
    elsewhere, so its entries add up to one.  [compute_2izsz_a] is the same
    column with the entry of state B cleared, so its entries add up to
    [1 - pb]; without a [pb] in the call both are the column of state A
    alone. *)
Theorem equilibrium_populations (kw : gmap string R) :
  (length (compute_equilibrium_2izsz kw) = 12%nat
   /\ Forall (fun row => length row = 1%nat) (compute_equilibrium_2izsz kw))
  /\ (forall i : nat,
        mentry (compute_equilibrium_2izsz kw) i 0
        = if decide (i = 5%nat) then 1 - kwarg kw "pb"
          else if decide (i = 11%nat) then kwarg kw "pb" else 0)
  /\ compute_2izsz_a kw = <[11%nat := [0]]> (compute_equilibrium_2izsz kw)
  /\ sum_R (column (compute_equilibrium_2izsz kw) 0) = 1
  /\ sum_R (column (compute_2izsz_a kw) 0) = 1 - kwarg kw "pb"
  /\ compute_2izsz_a (delete "pb" kw)
     = compute_equilibrium_2izsz (delete "pb" kw).
Proof.
  split; [split; [reflexivity | repeat constructor]|].
  split; [|split; [reflexivity | split; [|split]]].
  - intros i. do 12 (destruct i as [|i]; [reflexivity|]). reflexivity.
  - unfold compute_equilibrium_2izsz, set_rows, index_2izsz, column, sum_R.
    cbn. ring.
  - unfold compute_2izsz_a, set_rows, index_2izsz, column, sum_R.
    cbn. ring.
  - unfold compute_2izsz_a, compute_equilibrium_2izsz, set_rows, index_2izsz,
      kwarg.
    rewrite lookup_delete_eq. reflexivity.
Qed.

Lemma dot_pulse_column (d : list R) (x y : R) :
  length d = 12%nat ->
  nth 5 d 0 = -1 -> nth 11 d 0 = -1 ->
  dot (diag d)
    (<[11%nat := [y]]> (<[5%nat := [x]]> (replicate 12 [0])))
  = Some (mscale (<[11%nat := [y]]> (<[5%nat := [x]]> (replicate 12 [0])))
            (-1)).
Proof.
  intros Hlen H5 H11.
  do 13 (destruct d as [|? d]; try discriminate Hlen).
  cbn [nth] in H5, H11. subst.
  unfold dot. rewrite decide_True by (repeat constructor).
  f_equal. unfold diag, mscale, column, sum_R. cbn.
  repeat (f_equal; try ring).
Qed.

(** X18.  A perfect 180 degree pulse inverts the equilibrium.  For every
    population [pb], each of [p_180x_s], [p_180y_s] and [p_180x_i_perfect]
    maps the equilibrium column of 2IzSz, and the column of state A alone,
    to its negative. *)
Theorem pulses_invert_equilibrium (kw : gmap string R) :
  Forall (fun pulse =>
            dot pulse (compute_equilibrium_2izsz kw)
            = Some (mscale (compute_equilibrium_2izsz kw) (-1))
            /\ dot pulse (compute_2izsz_a kw)
               = Some (mscale (compute_2izsz_a kw) (-1)))
    [p_180x_s; p_180y_s; p_180x_i_perfect].
Proof.
  repeat constructor;
    apply dot_pulse_column; reflexivity.
Qed.

Lemma weight_unknown (kw : gmap string R) (k : string) (x : R) (t : term) :
  ~ In k keyword_names -> weight (<[k:=x]> kw) t = weight kw t.
Proof.
  intros Hk.
  assert (Hname : forall name, In name keyword_names ->
                    kwarg (<[k:=x]> kw) name = kwarg kw name).
  { intros name Hin. rewrite kwarg_insert. case_decide; [|reflexivity].
    subst. contradiction. }
  destruct t; unfold weight;
    rewrite ?Hname by (unfold keyword_names; simpl; tauto); reflexivity.
Qed.

(** X19.  Unknown keywords are ignored.  A keyword of a call of
    [compute_liouvillian] that is not one of the twenty names of the
    signature changes nothing: the call returns the matrix it returns
    without that keyword, whatever value the keyword carries. *)
Theorem unknown_keyword_ignored (ref : ref_basis) (kw : gmap string R)
    (k : string) (x : R) :
  ~ In k keyword_names ->
  compute_liouvillian ref (<[k:=x]> kw) = compute_liouvillian ref kw
  /\ compute_liouvillian ref (<[k:=x]> kw)
     = compute_liouvillian ref (delete k kw).
Proof.
  intros Hk.
  assert (H1 : compute_liouvillian ref (<[k:=x]> kw)
               = compute_liouvillian ref kw).
  { rewrite !compute_liouvillian_entries. unfold entry_sum, mesh.
    apply ix_select_ext; intros i j. f_equal.
    apply map_ext; intros t. now rewrite weight_unknown. }
  split; [exact H1|].
  rewrite H1, !compute_liouvillian_entries. unfold entry_sum, mesh.
  apply ix_select_ext; intros i j. f_equal.
  apply map_ext; intros t.
  rewrite weight_delete. now rewrite weight_unknown.
Qed.

Lemma unknown_keyword_ignored_demo :
  compute_liouvillian demo_ref (<["lambda_i_a" := 10]> ∅)
  = compute_liouvillian demo_ref ∅.
Proof.
  assert (H0 : ~ In "lambda_i_a" keyword_names).
  { unfold keyword_names. intros H.
    repeat (destruct H as [H|H]; [discriminate H|]). exact H. }
  destruct (unknown_keyword_ignored demo_ref ∅ "lambda_i_a" 10 H0) as [H1 _].
  exact H1.
Defined.

(** X20.  Without exchange the populations do not matter.  When the call
    carries no exchange rate, or the rate [0.0], the matrix that
    [compute_liouvillian] returns is the same for every [pb], and the same
    as without [pb]. *)
Theorem no_exchange_no_population (ref : ref_basis) (kw : gmap string R)
    (x : R) :
  kwarg kw "kex_ab" = 0 ->
  compute_liouvillian ref (<["pb" := x]> kw)
  = compute_liouvillian ref (delete "pb" kw).
Proof.
  intros Hk.
  rewrite !compute_liouvillian_entries. unfold entry_sum, mesh.
  apply ix_select_ext; intros i j. f_equal.
  apply map_ext; intros t. rewrite weight_delete.
  destruct t; unfold weight; rewrite !kwarg_insert;
    repeat (case_decide; simplify_eq); try reflexivity;
    rewrite Hk; ring.
Qed.

Lemma no_exchange_no_population_demo :
  compute_liouvillian demo_ref (<["pb" := 0.3]> (<["r1_i_a" := 2]> ∅))
  = compute_liouvillian demo_ref (delete "pb" (<["r1_i_a" := 2]> ∅)).
Proof.
  assert (H0 : kwarg (<["r1_i_a" := 2]> ∅) "kex_ab" = 0).
  { unfold kwarg. rewrite lookup_insert_ne by discriminate.
    now rewrite lookup_empty. }
  exact (no_exchange_no_population demo_ref (<["r1_i_a" := 2]> ∅) 0.3 H0).
Defined.

End IxyzszMore.

(** * Further properties of [2st_fast.py] *)

Module CestMore.
Import Cest CestFacts.

(** ** The cache around [_calculate_profile] *)

Lemma outcome_ok {A} ext (m : traced A) (v : A) :
  outcome ext m = Ok v -> v = m.1.
Proof.
  unfold outcome. destruct (first_raise ext m.2); [discriminate|].
  now intros [= <-].
Qed.

Lemma cache_find_In (a : sim_args) (entries : list (sim_args * list R))
    (v : list R) :
  cache_find a entries = Some v -> In (a, v) entries.
Proof.
  induction entries as [|[k w] entries IH]; simpl; [discriminate|].
  case_decide as Hk.
  - intros [= <-]. left. now rewrite Hk.
  - intros H. right. now apply IH.
Qed.

Lemma cache_find_head (a : sim_args) (v : list R)
    (entries : list (sim_args * list R)) :
  cache_find a ((a, v) :: entries) = Some v.
Proof. simpl. now rewrite decide_True. Qed.

Lemma cache_remove_In (a : sim_args) (entries : list (sim_args * list R))
    (kv : sim_args * list R) :
  In kv (cache_remove a entries) -> In kv entries.
Proof. unfold cache_remove. intros H. now apply filter_In in H as [H _]. Qed.

Lemma cache_consistent_Forall ext (p : Profile)
    (c : list (sim_args * list R)) :
  cache_consistent ext (set_cache c p)
  <-> Forall (fun kv => outcome ext (_calculate_profile ext p kv.1) = Ok kv.2) c.
Proof. reflexivity. Qed.

Lemma cache_consistent_hit ext (p : Profile) (a : sim_args) (v : list R) :
  cache_consistent ext p -> cache_find a (cache p) = Some v ->
  outcome ext (_calculate_profile ext p a) = Ok v.
Proof.
  intros Hc E. unfold cache_consistent in Hc. rewrite Forall_forall in Hc.
  apply cache_find_In in E.
  apply (Hc (a, v)). now apply list_elem_of_In.
Qed.

(** X1.  Memoisation is transparent while the Profile keeps its offsets.
    If every result in the store of the cache is what a call of
    [_calculate_profile] returns for the Profile as it is now, the cached
    call does what a call of the function itself does: it returns the same
    array, or raises the same exception.  The store that it leaves has the
    same property again. *)
Theorem cached_call_transparent ext (a : sim_args) (p : Profile) :
  cache_consistent ext p ->
  (cached_calculate_profile ext a p).1 = outcome ext (_calculate_profile ext p a)
  /\ cache_consistent ext (cached_calculate_profile ext a p).2.
Proof.
  intros Hc. pose proof Hc as Hall.
  unfold cache_consistent in Hall. rewrite Forall_forall in Hall.
  unfold cached_calculate_profile.
  destruct (cache_find a (cache p)) as [v|] eqn:E; cbn [fst snd].
  - assert (Hv := cache_consistent_hit ext p a v Hc E).
    split; [now rewrite Hv|].
    apply cache_consistent_Forall. constructor; [exact Hv|].
    apply Forall_forall. intros kv Hkv. apply Hall.
    apply list_elem_of_In. apply list_elem_of_In in Hkv.
    now apply cache_remove_In in Hkv.
  - destruct (outcome ext (_calculate_profile ext p a)) as [v|e] eqn:Ho;
      cbn [fst snd].
    + split; [reflexivity|].
      apply cache_consistent_Forall.
      apply Forall_take.
      constructor; [exact Ho|]. now apply Forall_forall.
    + split; [reflexivity | exact Hc].
Qed.

Lemma demo_args_differ : all_b_args <> demo_args.
Proof. intros H. apply (f_equal pb) in H. simpl in H. lra. Qed.

Lemma warm_profile_consistent : cache_consistent demo_ext warm_profile.
Proof.
  unfold warm_profile. apply cache_consistent_Forall.
  repeat constructor; cbn [fst snd]; now rewrite outcome_no_raise.
Qed.

Lemma warm_profile_hit :
  cache_find demo_args (cache warm_profile)
  = Some (_calculate_profile demo_ext demo_profile demo_args).1.
Proof.
  unfold warm_profile. cbn [cache set_cache cache_find].
  rewrite decide_False by exact demo_args_differ.
  now rewrite decide_True.
Qed.

(** The call finds its arguments in the store, behind another entry. *)
Lemma cached_call_transparent_demo :
  cache_consistent demo_ext warm_profile
  /\ cache_find demo_args (cache warm_profile)
     = Some (_calculate_profile demo_ext demo_profile demo_args).1
  /\ (cached_calculate_profile demo_ext demo_args warm_profile).1
     = outcome demo_ext (_calculate_profile demo_ext warm_profile demo_args).
Proof.
  split; [exact warm_profile_consistent | split; [exact warm_profile_hit|]].
  destruct (cached_call_transparent demo_ext demo_args warm_profile
              warm_profile_consistent) as [H _].
  exact H.
Defined.

(** X3.  The key of the cache is the arguments of the call, not the
    offsets.  Once a call has returned, a call with the same arguments
    returns the same array for any Profile that carries the same store,
    whatever its offsets, data, settings and collaborators are now: the
    function is not called again. *)
Theorem cache_ignores_offsets ext ext' (a : sim_args) (p q : Profile)
    (values : list R) :
  (cached_calculate_profile ext a p).1 = Ok values ->
  cache q = cache (cached_calculate_profile ext a p).2 ->
  (cached_calculate_profile ext' a q).1 = Ok values
  /\ cache_find a (cache q) = Some values.
Proof.
  intros Hr Hq.
  assert (Hhead : exists rest,
             cache (cached_calculate_profile ext a p).2 = (a, values) :: rest).
  { revert Hr. unfold cached_calculate_profile.
    destruct (cache_find a (cache p)); cbn [fst snd cache set_cache].
    - intros [= <-]. eexists. reflexivity.
    - destruct (outcome ext (_calculate_profile ext p a));
        cbn [fst snd cache set_cache]; [|discriminate].
      intros [= <-]. eexists. reflexivity. }
  destruct Hhead as (rest & Hc).
  assert (Hfind : cache_find a (cache q) = Some values)
    by (rewrite Hq, Hc; apply cache_find_head).
  split; [|exact Hfind].
  unfold cached_calculate_profile. now rewrite Hfind.
Qed.

Lemma demo_first_call :
  cached_calculate_profile demo_ext demo_args demo_profile
  = (Ok (_calculate_profile demo_ext demo_profile demo_args).1,
     set_cache [(demo_args, (_calculate_profile demo_ext demo_profile demo_args).1)]
       demo_profile).
Proof.
  unfold cached_calculate_profile. cbn [cache demo_profile cache_find].
  now rewrite outcome_no_raise.
Qed.

(** After the call, the offsets are replaced and [linalg.inv] is made to
    raise at them: the answer is still the stored array. *)
Lemma cache_ignores_offsets_demo :
  (cached_calculate_profile singular_ext demo_args
     (set_b1_offsets [0]
        (cached_calculate_profile demo_ext demo_args demo_profile).2)).1
  = Ok (_calculate_profile demo_ext demo_profile demo_args).1.
Proof.
  destruct (cache_ignores_offsets demo_ext singular_ext demo_args demo_profile
              (set_b1_offsets [0]
                 (cached_calculate_profile demo_ext demo_args demo_profile).2)
              (_calculate_profile demo_ext demo_profile demo_args).1)
    as [H _].
  - now rewrite demo_first_call.
  - reflexivity.
  - exact H.
Defined.
(** ** [calculate_profile] and [filter_points] together *)

Lemma cached_call_consistent ext (a : sim_args) (p : Profile)
    (values : list R) :
  cache_consistent ext p ->
  outcome ext (_calculate_profile ext p a) = Ok values ->
  exists rest,
    cached_calculate_profile ext a p
    = (Ok values, set_cache ((a, values) :: rest) p).
Proof.
  intros Hc Ho.
  unfold cached_calculate_profile.
  destruct (cache_find a (cache p)) as [v|] eqn:E.
  - assert (Hv := cache_consistent_hit ext p a v Hc E).
    rewrite Ho in Hv. injection Hv as <-. eexists. reflexivity.
  - rewrite Ho. exists (take 4 (cache p)). reflexivity.
Qed.

(** With no alternative offsets, [calculate_profile] leaves the Profile as
    the cached call left it. *)
Lemma calculate_profile_state ext (params : gmap string R) (p : Profile)
    (kwargs : sim_args) :
  kwargs_of params (map_names p) = Ok kwargs ->
  (calculate_profile ext params None p).2
  = (cached_calculate_profile ext kwargs p).2.
Proof.
  intros Hk. rewrite calculate_profile_unfold, Hk. cbv zeta.
  destruct ((cached_calculate_profile ext kwargs p).1); [|reflexivity].
  destruct (_calculate_scale _ _); reflexivity.
Qed.

Lemma filter_points_keeps_cache (params : gmap string R) (p : Profile) :
  cache (filter_points params p).2 = cache p
  /\ map_names (filter_points params p).2 = map_names p.
Proof.
  rewrite filter_points_unfold.
  destruct (getitem params _); [|tauto]. cbv zeta.
  destruct (bool_index (b1_offsets p) _); [|tauto].
  destruct (bool_index (val p) _); [|simpl; tauto].
  destruct (bool_index (err p) _); simpl; tauto.
Qed.

Lemma filter_points_same_length (params : gmap string R) (p : Profile)
    (cs : R) :
  getitem params (name_cs_i_a (map_names p)) = Ok cs ->
  length (val p) = length (b1_offsets p) ->
  length (err p) = length (b1_offsets p) ->
  filter_points params p
  = (Ok tt,
     set_err (mask_select (err p) (filter_mask p cs))
       (set_val (mask_select (val p) (filter_mask p cs))
          (set_b1_offsets (mask_select (b1_offsets p) (filter_mask p cs)) p))).
Proof.
  intros Hcs Hv He. rewrite filter_points_unfold, Hcs. cbv zeta.
  unfold bool_index, filter_mask. rewrite !length_map.
  rewrite !decide_True by congruence. reflexivity.
Qed.


(** X4.  A stale cache.  Take a Profile whose cache agrees with it (a fresh
    one, say), call [calculate_profile], then [filter_points], then
    [calculate_profile] again with the same parameters.  If the simulation
    of the first call has returned, and the filter has removed points and
    has left more than one, the second call raises: the cache answers with
    the profile of the old offsets, whose length no longer broadcasts
    against the filtered data. *)
Theorem stale_cache_breaks_scale ext (params : gmap string R) (p : Profile)
    (kwargs : sim_args) (values : list R) :
  cache_consistent ext p ->
  kwargs_of params (map_names p) = Ok kwargs ->
  outcome ext (_calculate_profile ext p kwargs) = Ok values ->
  let p1 := (calculate_profile ext params None p).2 in
  let p2 := (filter_points params p1).2 in
  (1 < length (val p2) < length (b1_offsets p))%nat ->
  (calculate_profile ext params None p2).1
  = Err (ValueError "operands could not be broadcast together").
Proof.
  intros Hc Hk Ho p1 p2 Hlen.
  destruct (cached_call_consistent ext kwargs p values Hc Ho) as [rest Hcall].
  assert (Hp1 : p1 = set_cache ((kwargs, values) :: rest) p).
  { subst p1. rewrite (calculate_profile_state ext params p kwargs Hk).
    now rewrite Hcall. }
  destruct (filter_points_keeps_cache params p1) as [Hcache Hnames].
  fold p2 in Hcache, Hnames.
  rewrite calculate_profile_unfold.
  rewrite Hnames, Hp1. cbn [map_names set_cache]. rewrite Hk. cbv zeta.
  assert (Hhit : cached_calculate_profile ext kwargs p2
                 = (Ok values,
                    set_cache ((kwargs, values)
                               :: cache_remove kwargs (cache p2)) p2)).
  { unfold cached_calculate_profile. rewrite Hcache, Hp1.
    cbn [cache set_cache]. rewrite cache_find_head. reflexivity. }
  rewrite Hhit. cbn [fst snd]. rewrite calculate_scale_set_cache.
  assert (Hn : length values = length (b1_offsets p)).
  { rewrite (outcome_ok ext _ values Ho).
    rewrite calculate_profile_points. cbn [fst]. apply length_map. }
  unfold _calculate_scale, arr_mul, broadcast.
  rewrite !decide_False by lia. reflexivity.
Qed.

Lemma demo_mask (c : list (sim_args * list R)) :
  filter_mask (set_cache c demo_profile) 0 = [true; false; true].
Proof.
  unfold filter_mask. cbn [b1_offsets set_cache demo_profile map].
  rewrite !keeps_zero_width by reflexivity.
  change (nu_offset (set_cache c demo_profile) 0)
    with (nu_offset demo_profile 0).
  rewrite !nu_offset_demo.
  rewrite (bool_decide_true (- -20000 <> 0)) by lra.
  rewrite (bool_decide_false (- 0 <> 0)) by lra.
  rewrite (bool_decide_true (- 50 <> 0)) by lra.
  reflexivity.
Qed.

Lemma stale_cache_breaks_scale_demo :
  (calculate_profile demo_ext demo_params None
     (filter_points demo_params
        (calculate_profile demo_ext demo_params None demo_profile).2).2).1
  = Err (ValueError "operands could not be broadcast together").
Proof.
  apply (stale_cache_breaks_scale demo_ext demo_params demo_profile demo_args
           (_calculate_profile demo_ext demo_profile demo_args).1).
  - constructor.
  - reflexivity.
  - now rewrite outcome_no_raise.
  - rewrite (calculate_profile_state demo_ext demo_params demo_profile
               demo_args eq_refl).
    rewrite demo_first_call. cbn [snd].
    rewrite (filter_points_same_length demo_params _ 0);
      [| reflexivity | reflexivity | reflexivity].
    cbn [snd val set_err set_val]. rewrite demo_mask. simpl. lia.
Defined.

(** X5.  Alternative offsets.  When [calculate_profile] is given other
    offsets and returns, it returns one intensity per alternative offset:
    the simulation at that offset times the scale.  The scale is the one
    that fits the simulation at the Profile's own offsets to its data. *)
Theorem calculate_profile_alternative ext (params : gmap string R)
    (b1_offsets_new : list R) (p : Profile) (out : list R) :
  (calculate_profile ext params (Some b1_offsets_new) p).1 = Ok out ->
  exists (kwargs : sim_args) (values : list R) (scale : R),
    kwargs_of params (map_names p) = Ok kwargs
    /\ (cached_calculate_profile ext kwargs p).1 = Ok values
    /\ _calculate_scale p values = Ok scale
    /\ out = map (fun b1 => (point_at ext p kwargs b1).1 * scale) b1_offsets_new
    /\ length out = length b1_offsets_new.
Proof.
  rewrite calculate_profile_unfold.
  destruct (kwargs_of params (map_names p)) as [kwargs|e]; [|discriminate].
  cbv zeta.
  destruct (cached_call_frame ext kwargs p) as [c Hc].
  destruct ((cached_calculate_profile ext kwargs p).1) as [values|e] eqn:Hv;
    [|discriminate].
  rewrite Hc, calculate_scale_set_cache.
  destruct (_calculate_scale p values) as [scale|e] eqn:Hs; [|discriminate].
  destruct (outcome ext _) as [values'|e] eqn:Ho; [|discriminate].
  cbn [fst]. intros [= <-].
  apply outcome_ok in Ho. subst values'.
  exists kwargs, values, scale.
  split; [reflexivity | split; [exact Hv | split; [exact Hs|]]].
  rewrite calculate_profile_points. cbn [fst b1_offsets set_b1_offsets].
  unfold arr_scale. rewrite map_map.
  split; [reflexivity | now rewrite length_map].
Qed.

Lemma calculate_profile_alternative_demo :
  exists out : list R,
    (calculate_profile demo_ext demo_params (Some [-20000; -30000]) far_point).1
    = Ok out
    /\ length out = 2%nat.
Proof.
  assert (Hsim : (cached_calculate_profile demo_ext demo_args far_point).1
                 = Ok (val far_point)).
  { apply (simulated_far_point far_point demo_args (-20000));
      [reflexivity | lra | reflexivity]. }
  assert (Hscale : exists scale, _calculate_scale far_point (val far_point)
                                 = Ok scale).
  { rewrite calculate_scale_quotient;
      [| reflexivity | reflexivity | repeat constructor; simpl; lra].
    unfold div, sum_cc, sum_cv, points, sum_R. cbn.
    rewrite decide_False by lra. eexists. reflexivity. }
  destruct Hscale as [scale Hscale].
  assert (Hcall : exists out,
             (calculate_profile demo_ext demo_params (Some [-20000; -30000])
                far_point).1 = Ok out).
  { rewrite calculate_profile_unfold.
    change (kwargs_of demo_params (map_names far_point)) with (Ok demo_args).
    cbv beta iota zeta. rewrite Hsim.
    destruct (cached_call_frame demo_ext demo_args far_point) as [c Hc].
    rewrite Hc, calculate_scale_set_cache, Hscale.
    rewrite outcome_no_raise by reflexivity. eexists. reflexivity. }
  destruct Hcall as [out Hout]. exists out. split; [exact Hout|].
  destruct (calculate_profile_alternative demo_ext demo_params
              [-20000; -30000] far_point out Hout)
    as (k & v & s & _ & _ & _ & _ & Hlen).
  exact Hlen.
Defined.

Lemma kwargs_of_ok (params : gmap string R) (n : names) (a : sim_args) :
  kwargs_of params n = Ok a ->
  params !! name_pb n = Some (pb a)
  /\ params !! name_kex_ab n = Some (kex_ab a)
  /\ params !! name_cs_i_a n = Some (cs_i_a a)
  /\ params !! name_dw_i_ab n = Some (dw_i_ab a)
  /\ params !! name_lambda_i_a n = Some (lambda_i_a a)
  /\ params !! name_dlambda_i_ab n = Some (dlambda_i_ab a)
  /\ params !! name_rho_i_a n = Some (rho_i_a a).
Proof.
  unfold kwargs_of, getitem. intros H.
  repeat match type of H with
         | context [params !! ?k] =>
             destruct (params !! k) eqn:?; cbn [mbind result_bind] in H;
             [|discriminate H]
         end.
  injection H as <-. simpl. tauto.
Qed.

Lemma kwargs_of_err (params : gmap string R) (n : names) (e : error) :
  kwargs_of params n = Err e ->
  exists k, e = KeyError k /\ In k (names_list n) /\ params !! k = None.
Proof.
  unfold kwargs_of, getitem, names_list. intros H.
  repeat match type of H with
         | context [params !! ?k] =>
             destruct (params !! k) eqn:?; cbn [mbind result_bind] in H;
             [| injection H as <-; exists k; simpl; tauto]
         end.
  discriminate H.
Qed.

(** X6.  The parameters that [calculate_profile] needs.  The call finds its
    seven arguments when each of the seven names of [self.map_names] is a
    key of the parameters, and then each argument is the value stored under
    its name.  Otherwise [calculate_profile] and [calculate_residuals]
    raise a [KeyError] for one of the names that are missing, and leave the
    Profile, its cache included, untouched. *)
Theorem calculate_profile_arguments ext (params : gmap string R)
    (b1_offsets_arg : option (list R)) (p : Profile) :
  match kwargs_of params (map_names p) with
  | Ok a =>
      Forall (fun k => is_Some (params !! k)) (names_list (map_names p))
      /\ params !! name_pb (map_names p) = Some (pb a)
      /\ params !! name_kex_ab (map_names p) = Some (kex_ab a)
      /\ params !! name_cs_i_a (map_names p) = Some (cs_i_a a)
      /\ params !! name_dw_i_ab (map_names p) = Some (dw_i_ab a)
      /\ params !! name_lambda_i_a (map_names p) = Some (lambda_i_a a)
      /\ params !! name_dlambda_i_ab (map_names p) = Some (dlambda_i_ab a)
      /\ params !! name_rho_i_a (map_names p) = Some (rho_i_a a)
  | Err e =>
      (exists k, e = KeyError k /\ In k (names_list (map_names p))
                 /\ params !! k = None)
      /\ calculate_profile ext params b1_offsets_arg p = (Err e, p)
      /\ calculate_residuals ext params p = (Err e, p)
  end.
Proof.
  destruct (kwargs_of params (map_names p)) as [a|e] eqn:Hk.
  - destruct (kwargs_of_ok _ _ _ Hk) as (H1 & H2 & H3 & H4 & H5 & H6 & H7).
    split; [|tauto].
    unfold names_list. repeat constructor; eexists; eassumption.
  - split; [now apply kwargs_of_err|].
    assert (Hcp : forall arg, calculate_profile ext params arg p = (Err e, p))
      by (intros arg; now rewrite calculate_profile_unfold, Hk).
    split; [apply Hcp|].
    unfold calculate_residuals. unfold mbind at 1, method_bind.
    now rewrite Hcp.
Qed.

(** ** More on the scale and the residuals *)

Lemma weighted_residual_sum (cal v e : list R) (s : R) :
  Forall (fun y => y <> 0) e ->
  sum_R (zip_with Rmult
           (zip_with Rdiv (zip_with Rminus v (arr_scale cal s)) e)
           (zip_with Rdiv cal e))
  = sum_cv (points cal v e) - s * sum_cc (points cal v e).
Proof.
  unfold sum_cv, sum_cc, points, arr_scale, sum_R.
  revert v e; induction cal as [|c cal IH]; intros [|x v] [|y e] He;
    cbn [map zip_with foldr fst snd]; try ring.
  inversion He as [|? ? Hy Hrest]; subst.
  rewrite (IH v e Hrest). cbn [fst snd]. field. exact Hy.
Qed.

Lemma div_ok (x y s : R) : div x y = Ok s -> y <> 0 /\ s = x / y.
Proof.
  unfold div. case_decide; [discriminate|]. intros [= <-]. tauto.
Qed.

(** X7.  The normal equation.  Take a simulation of the length of the
    data, and errors that are not zero.  If some simulated intensity is not
    zero, [calculate_residuals] returns one residual per point, and the
    residuals are orthogonal to the simulation weighted by the errors: the
    sum over the points of [residual * simulated / err] is zero.  If every
    simulated intensity is zero, the scale is [0.0 / 0.0] and the residuals
    are no numbers. *)
Theorem residuals_orthogonal ext (params : gmap string R) (p : Profile)
    (kwargs : sim_args) (values : list R) :
  kwargs_of params (map_names p) = Ok kwargs ->
  (cached_calculate_profile ext kwargs p).1 = Ok values ->
  length values = length (val p) ->
  length (err p) = length (val p) ->
  Forall (fun e => e <> 0) (err p) ->
  (Exists (fun c => c <> 0) values ->
   exists res : list R,
     (calculate_residuals ext params p).1 = Ok res
     /\ length res = length (val p)
     /\ sum_R (zip_with Rmult res (zip_with Rdiv values (err p))) = 0)
  /\ (Forall (fun c => c = 0) values ->
      (calculate_residuals ext params p).1 = Err NotFinite).
Proof.
  intros Hk Hv Hlen He Hnz.
  rewrite (calculate_residuals_result ext params p kwargs values Hk Hv).
  split.
  - intros Hex.
    rewrite calculate_scale_quotient by assumption.
    assert (Hpos : 0 < sum_cc (points values (val p) (err p))).
    { apply sum_cc_pos; [now apply points_errors_nonzero|].
      now apply points_some_simulated. }
    unfold div. rewrite decide_False by lra.
    cbn [mbind result_bind].
    rewrite arr_sub_same_length
      by (unfold arr_scale; rewrite length_map; lia).
    cbn [mbind result_bind].
    rewrite arr_div_nonzero;
      [| unfold arr_scale; rewrite length_zip_with, length_map; lia | exact Hnz].
    eexists. split; [reflexivity | split].
    + unfold arr_scale. rewrite !length_zip_with, length_map. lia.
    + rewrite weighted_residual_sum by exact Hnz. field. lra.
  - intros Hz.
    now rewrite calculate_scale_all_zero.
Qed.

Lemma simulated_far_points (p : Profile) (a : sim_args) :
  Forall (fun b1 => b1 <= -10000) (b1_offsets p) -> cache p = [] ->
  (cached_calculate_profile demo_ext a p).1
  = Ok (map (fun _ => 1 - pb a) (b1_offsets p)).
Proof.
  intros Hfar Hc. unfold cached_calculate_profile. rewrite Hc.
  cbn [cache_find]. rewrite outcome_no_raise by reflexivity. cbn [fst].
  rewrite calculate_profile_points. cbn [fst]. f_equal.
  induction Hfar as [|b1 l Hb Hl IH]; [reflexivity|].
  cbn [map]. rewrite IH. f_equal.
  unfold point_at, offset_magz. cbv zeta.
  now rewrite decide_True by exact Hb.
Qed.

Lemma two_far_points_simulated :
  (cached_calculate_profile demo_ext demo_args two_far_points).1
  = Ok [1 - 0.05; 1 - 0.05].
Proof.
  rewrite simulated_far_points; [reflexivity | | reflexivity].
  repeat constructor; lra.
Qed.

(** Two points far off resonance, measured at [1.0] and [2.0]: the scaled
    simulation is their mean, and the residuals are [-0.5] and [0.5]. *)
Example two_far_points_residuals :
  (calculate_residuals demo_ext demo_params two_far_points).1
  = Ok [-0.5; 0.5].
Proof.
  rewrite (calculate_residuals_result demo_ext demo_params two_far_points
             demo_args [1 - 0.05; 1 - 0.05] eq_refl two_far_points_simulated).
  rewrite calculate_scale_quotient;
    [| reflexivity | reflexivity | repeat constructor; simpl; lra].
  unfold div, sum_cc, sum_cv, points, sum_R. cbn.
  rewrite decide_False by lra. cbn [mbind result_bind].
  rewrite arr_sub_same_length by reflexivity. cbn [mbind result_bind].
  rewrite arr_div_nonzero;
    [| reflexivity | repeat constructor; simpl; lra].
  cbn. f_equal. f_equal; [|f_equal]; lra.
Qed.

Lemma residuals_orthogonal_demo :
  exists res : list R,
    (calculate_residuals demo_ext demo_params two_far_points).1 = Ok res
    /\ length res = 2%nat
    /\ sum_R (zip_with Rmult res
                (zip_with Rdiv [1 - 0.05; 1 - 0.05] (err two_far_points)))
       = 0.
Proof.
  destruct (residuals_orthogonal demo_ext demo_params two_far_points demo_args
              [1 - 0.05; 1 - 0.05])
    as [H _].
  - reflexivity.
  - exact two_far_points_simulated.
  - reflexivity.
  - reflexivity.
  - repeat constructor; simpl; lra.
  - apply H. left. lra.
Defined.

Lemma sums_of_scaled (cal v e : list R) (c : R) :
  Forall (fun y => y <> 0) e ->
  sum_cv (points (arr_scale cal c) v e) = sum_cv (points cal v e) * c
  /\ sum_cc (points (arr_scale cal c) v e) = sum_cc (points cal v e) * (c * c).
Proof.
  unfold sum_cv, sum_cc, points, arr_scale, sum_R.
  revert v e; induction cal as [|x cal IH]; intros [|y v] [|z e] He;
    cbn [map zip zip_with foldr fst snd]; try (split; ring).
  inversion He as [|? ? Hz Hrest]; subst.
  destruct (IH v e Hrest) as [IH1 IH2].
  cbn [zip zip_with] in IH1, IH2. rewrite IH1, IH2.
  split; field; exact Hz.
Qed.

(** X8.  The scale absorbs the amplitude of the simulation.  Multiply a
    simulated profile by a constant that is not zero: the scale is divided
    by that constant, so the scaled profile, which is what
    [calculate_profile] returns, stays the same. *)
Theorem scale_absorbs_amplitude (p : Profile) (cal : list R) (c s : R) :
  length cal = length (val p) ->
  length (err p) = length (val p) ->
  Forall (fun e => e <> 0) (err p) ->
  c <> 0 ->
  _calculate_scale p cal = Ok s ->
  _calculate_scale p (arr_scale cal c) = Ok (s / c)
  /\ arr_scale (arr_scale cal c) (s / c) = arr_scale cal s.
Proof.
  intros Hc He Hnz Hc0 Hs.
  rewrite calculate_scale_quotient in Hs by assumption.
  apply div_ok in Hs as [Hcc Hs].
  split.
  - rewrite calculate_scale_quotient;
      [| unfold arr_scale; rewrite length_map; exact Hc | exact He | exact Hnz].
    destruct (sums_of_scaled cal (val p) (err p) c Hnz) as [-> ->].
    unfold div. rewrite decide_False.
    + f_equal. rewrite Hs. field. split; assumption.
    + apply Rmult_integral_contrapositive_currified; [exact Hcc|].
      now apply Rmult_integral_contrapositive_currified.
  - unfold arr_scale. rewrite map_map. apply map_ext. intros x.
    field. exact Hc0.
Qed.

Lemma scale_absorbs_amplitude_demo :
  _calculate_scale demo_profile (arr_scale [1; 1; 1] 2)
  = Ok ((0.95 + 0.5 + 0.9) / 3 / 2).
Proof.
  apply (scale_absorbs_amplitude demo_profile [1; 1; 1] 2).
  - reflexivity.
  - reflexivity.
  - repeat constructor; simpl; lra.
  - lra.
  - apply calculate_scale_demo.
Defined.

(** ** More on [filter_points] and the offsets *)

Lemma two_pi_pos : 0 < two_pi.
Proof. unfold two_pi. assert (H := PI_RGT_0). lra. Qed.

Lemma b1_offsets_to_ppm_nonzero (p : Profile)
    (b1_offsets_arg : option (list R)) :
  ppm_to_rads p <> 0 ->
  b1_offsets_to_ppm p b1_offsets_arg
  = Ok (map (fun b1 => two_pi * b1 / ppm_to_rads p + carrier p)
          (default (b1_offsets p) b1_offsets_arg)).
Proof.
  intros Hp. unfold b1_offsets_to_ppm. cbv zeta.
  induction (default (b1_offsets p) b1_offsets_arg) as [|b1 l IH];
    [reflexivity|].
  cbn [mapM map]. rewrite IH. unfold div.
  rewrite decide_False by exact Hp. reflexivity.
Qed.

(** X9.  The filter, in ppm.  For a Profile whose [ppm_to_rads] is not zero,
    let [x] be the position that [b1_offsets_to_ppm] gives an offset.
    The distance from resonance that [filter_points] tests is
    [(cs - x) * ppm_to_rads / (2 pi)]: a point is on resonance exactly when
    its position in ppm is the chemical shift [cs], and it is kept exactly
    when [|cs - x| * |ppm_to_rads| / (2 pi)] exceeds half the width. *)
Theorem filter_in_ppm (p : Profile) (cs b1 : R) :
  ppm_to_rads p <> 0 ->
  exists x : R,
    b1_offsets_to_ppm p (Some [b1]) = Ok [x]
    /\ nu_offset p cs b1 = (cs - x) * ppm_to_rads p / two_pi
    /\ (nu_offset p cs b1 = 0 <-> x = cs)
    /\ (keeps p cs b1 = true
        <-> Rabs (cs - x) * Rabs (ppm_to_rads p) / two_pi
            > on_resonance_filter p * 0.5).
Proof.
  intros Hp. assert (Hpi := two_pi_pos).
  exists (two_pi * b1 / ppm_to_rads p + carrier p).
  assert (Hnu : nu_offset p cs b1
                = (cs - (two_pi * b1 / ppm_to_rads p + carrier p))
                  * ppm_to_rads p / two_pi).
  { unfold nu_offset. fold two_pi. field. split; first [exact Hp | lra]. }
  split; [|split; [exact Hnu | split]].
  - now rewrite b1_offsets_to_ppm_nonzero.
  - rewrite Hnu. split.
    + intros H0.
      assert (Hm : (cs - (two_pi * b1 / ppm_to_rads p + carrier p))
                   * ppm_to_rads p = 0).
      { apply (Rmult_eq_reg_r (/ two_pi)); [|apply Rinv_neq_0_compat; lra].
        rewrite Rmult_0_l. exact H0. }
      apply Rmult_integral in Hm as [Hm | Hm]; [lra | contradiction].
    + intros ->. unfold Rdiv. ring.
  - unfold keeps. rewrite bool_decide_eq_true, Hnu.
    unfold Rdiv at 1. rewrite !Rabs_mult.
    rewrite (Rabs_pos_eq (/ two_pi))
      by (left; apply Rinv_0_lt_compat; exact Hpi).
    tauto.
Qed.

Lemma filter_in_ppm_demo :
  exists x : R,
    b1_offsets_to_ppm demo_profile (Some [50]) = Ok [x]
    /\ (nu_offset demo_profile 0 50 = 0 <-> x = 0).
Proof.
  destruct (filter_in_ppm demo_profile 0 50) as (x & H1 & _ & H2 & _).
  - simpl. lra.
  - exists x. tauto.
Defined.

(** X10.  The filter and the simulation measure the same distance.  The
    shift of state A that [_calculate_profile] uses at an offset is [2 pi]
    times the distance from resonance that [filter_points] tests there (at
    the same chemical shift), less the exchange-induced shift. *)
Theorem simulated_shift_is_filter_distance ext (p : Profile) (a : sim_args)
    (b1 : R) :
  omega_i_a_at ext p a b1
  = two_pi * nu_offset p (cs_i_a a) b1
    - (calculate_shift_2st ext (pb a) (kex_ab a) (dw_i_ab a * ppm_to_rads p)
         (lambda_i_a a) (lambda_i_a a + dlambda_i_ab a)).1.
Proof.
  assert (Hpi := two_pi_pos).
  unfold omega_i_a_at, nu_offset. fold two_pi. field. lra.
Qed.

(** X11.  Filtering keeps the points together.  With three arrays of one
    length and the chemical shift among the parameters, [filter_points]
    returns, and what it leaves is the points (offset, value, error) that
    pass the test on their offset, in their order: the three arrays have
    one length again. *)
Theorem filter_points_aligned (params : gmap string R) (p : Profile) (cs : R) :
  getitem params (name_cs_i_a (map_names p)) = Ok cs ->
  length (val p) = length (b1_offsets p) ->
  length (err p) = length (b1_offsets p) ->
  let p' := (filter_points params p).2 in
  (filter_points params p).1 = Ok tt
  /\ zip (b1_offsets p') (zip (val p') (err p'))
     = List.filter (fun point => keeps p cs point.1)
         (zip (b1_offsets p) (zip (val p) (err p)))
  /\ length (val p') = length (b1_offsets p')
  /\ length (err p') = length (b1_offsets p').
Proof.
  intros Hcs Hv He. cbv zeta.
  rewrite (filter_points_same_length params p cs Hcs Hv He).
  cbn [fst snd b1_offsets val err set_b1_offsets set_val set_err].
  assert (Hlen : forall l : list R,
             length l = length (b1_offsets p) ->
             length (mask_select l (filter_mask p cs))
             = length (mask_select (b1_offsets p) (filter_mask p cs))).
  { unfold filter_mask. generalize (keeps p cs). intros f.
    generalize (b1_offsets p). intros b l. revert b.
    induction l as [|x l IH]; intros [|y b] Hl; simpl in *;
      try discriminate; [reflexivity|].
    destruct (f y); simpl; rewrite (IH b) by lia; reflexivity. }
  split; [reflexivity | split; [|split; now apply Hlen]].
  rewrite <- !mask_select_zip. unfold filter_mask.
  apply mask_select_map_fst. rewrite length_zip. lia.
Qed.

Lemma filter_points_aligned_demo :
  (filter_points demo_params demo_profile).1 = Ok tt
  /\ length (val (filter_points demo_params demo_profile).2)
     = length (b1_offsets (filter_points demo_params demo_profile).2).
Proof.
  destruct (filter_points_aligned demo_params demo_profile 0)
    as (H1 & _ & H2 & _); try reflexivity.
  split; assumption.
Defined.

(** X12.  How [filter_points] fails.  It raises in two ways only.  When the
    chemical shift is not among the parameters it raises [KeyError] and has
    changed nothing.  When the values or the errors are not as many as the
    offsets it raises [IndexError]: by then the offsets are filtered
    already, while the errors, and the values too if they are the array of
    the wrong length, are as they were. *)
Theorem filter_points_failure (params : gmap string R) (p : Profile)
    (e : error) :
  (filter_points params p).1 = Err e ->
  let p' := (filter_points params p).2 in
  (e = KeyError (name_cs_i_a (map_names p))
   /\ params !! name_cs_i_a (map_names p) = None
   /\ p' = p)
  \/ (e = IndexError
      /\ (length (val p) <> length (b1_offsets p)
          \/ length (err p) <> length (b1_offsets p))
      /\ (exists cs,
             params !! name_cs_i_a (map_names p) = Some cs
             /\ b1_offsets p' = List.filter (keeps p cs) (b1_offsets p))
      /\ (length (val p) <> length (b1_offsets p) -> val p' = val p)
      /\ err p' = err p).
Proof.
  cbv zeta. rewrite filter_points_unfold. unfold getitem.
  destruct (params !! name_cs_i_a (map_names p)) as [cs|] eqn:Hcs.
  2: { cbn [fst snd]. intros [= <-]. left. tauto. }
  cbv zeta. rewrite bool_index_offsets.
  unfold bool_index, filter_mask. rewrite !length_map.
  destruct (decide (length (val p) = length (b1_offsets p))) as [Hv|Hv].
  - destruct (decide (length (err p) = length (b1_offsets p))) as [He|He];
      cbn [fst snd]; [discriminate|].
    intros [= <-]. right.
    split; [reflexivity | split; [now right | split; [|split]]].
    + exists cs. split; reflexivity.
    + intros Hc. contradiction.
    + reflexivity.
  - cbn [fst snd]. intros [= <-]. right.
    split; [reflexivity | split; [now left | split; [|split]]].
    + exists cs. split; reflexivity.
    + reflexivity.
    + reflexivity.
Qed.

Lemma filter_points_failure_demo :
  (filter_points demo_params (set_val [1] demo_profile)).1 = Err IndexError
  /\ err (filter_points demo_params (set_val [1] demo_profile)).2
     = err demo_profile.
Proof.
  assert (H : (filter_points demo_params (set_val [1] demo_profile)).1
              = Err IndexError).
  { rewrite filter_points_unfold.
    change (getitem demo_params
              (name_cs_i_a (map_names (set_val [1] demo_profile))))
      with (@Ok R 0).
    cbv beta iota zeta. rewrite bool_index_offsets. reflexivity. }
  split; [exact H|].
  destruct (filter_points_failure demo_params (set_val [1] demo_profile)
              IndexError H)
    as [(Hk & _) | (_ & _ & _ & _ & He)]; [discriminate | exact He].
Defined.

(** X13.  A negative width filters nothing.  Whatever the parameters and
    the lengths of the arrays, [filter_points] on a Profile whose
    [on_resonance_filter] is negative leaves the offsets, the values and
    the errors as they are. *)
Theorem filter_points_negative_width (params : gmap string R) (p : Profile) :
  on_resonance_filter p < 0 ->
  let p' := (filter_points params p).2 in
  b1_offsets p' = b1_offsets p /\ val p' = val p /\ err p' = err p.
Proof.
  intros Hneg. cbv zeta.
  destruct (getitem params (name_cs_i_a (map_names p))) as [cs|e] eqn:Hcs.
  - apply (filter_points_stable params p cs Hcs).
    apply Forall_forall. intros b1 _. unfold keeps.
    apply bool_decide_eq_true.
    assert (H0 := Rabs_pos (nu_offset p cs b1)). lra.
  - rewrite filter_points_unfold, Hcs. tauto.
Qed.

Lemma filter_points_negative_width_demo :
  b1_offsets (filter_points demo_params
                (MkProfile "G23N" [-20000; 0; 50] [0.95; 0.5; 0.9] [1; 1; 1]
                   600 298 0 25 0.4 (Text "cest") (-1) [] 1 [(0, 1)]
                   demo_names)).2
  = [-20000; 0; 50].
Proof.
  apply (filter_points_negative_width demo_params
           (MkProfile "G23N" [-20000; 0; 50] [0.95; 0.5; 0.9] [1; 1; 1]
              600 298 0 25 0.4 (Text "cest") (-1) [] 1 [(0, 1)] demo_names)).
  simpl. lra.
Defined.

(** ** The default parameters *)

Lemma add_many_cons (t : string * parameter) (ts : list (string * parameter))
    (m : gmap string parameter) :
  add_many (t :: ts) m = add_many ts (<[t.1 := t.2]> m).
Proof. reflexivity. Qed.

Lemma add_many_not_in (ts : list (string * parameter))
    (m : gmap string parameter) (k : string) :
  ~ In k (map fst ts) -> add_many ts m !! k = m !! k.
Proof.
  revert m; induction ts as [|t ts IH]; intros m Hk; [reflexivity|].
  rewrite add_many_cons, IH by (intros H; apply Hk; now right).
  apply lookup_insert_ne. intros E. apply Hk. now left.
Qed.

Lemma add_many_is_Some (ts : list (string * parameter))
    (m : gmap string parameter) (k : string) :
  In k (map fst ts) -> is_Some (add_many ts m !! k).
Proof.
  revert m; induction ts as [|t ts IH]; intros m Hk; [destruct Hk|].
  rewrite add_many_cons.
  destruct (in_dec String.string_dec k (map fst ts)) as [Hin|Hout].
  - now apply IH.
  - rewrite add_many_not_in by exact Hout.
    destruct Hk as [<-|Hk]; [|contradiction].
    rewrite lookup_insert_eq. eauto.
Qed.

Lemma add_many_NoDup (ts : list (string * parameter))
    (m : gmap string parameter) (k : string) (v : parameter) :
  List.NoDup (map fst ts) -> In (k, v) ts -> add_many ts m !! k = Some v.
Proof.
  revert m; induction ts as [|t ts IH]; intros m Hnd Hin; [destruct Hin|].
  rewrite add_many_cons. inversion Hnd as [|? ? Hout Hrest]; subst.
  destruct Hin as [->|Hin].
  - rewrite add_many_not_in by exact Hout. apply lookup_insert_eq.
  - now apply IH.
Qed.

Lemma kwargs_of_present (params : gmap string R) (n : names) :
  Forall (fun k => is_Some (params !! k)) (names_list n) ->
  exists a, kwargs_of params n = Ok a.
Proof.
  unfold names_list. intros H.
  repeat match goal with
         | H : Forall _ (_ :: _) |- _ =>
             let Hx := fresh "Hx" in
             apply Forall_cons in H as [[? Hx] H]
         end.
  unfold kwargs_of, getitem.
  repeat match goal with
         | Hx : params !! ?k = Some _ |- _ => rewrite Hx; clear Hx
         end.
  cbn [mbind result_bind]. eexists. reflexivity.
Qed.

(** X14.  The default parameters are enough to simulate.  The parameters
    that [create_default_parameters] makes hold a value under each of the
    seven names that [calculate_profile] looks up, so the look-up never
    raises; and if the seven full names are different from one another, the
    arguments found are the defaults: [pb = 0.05], [kex_ab = 200],
    [lambda_i_a = 10], [rho_i_a = 1] and zero for the shift, the shift
    difference and [dlambda_i_ab]. *)
Theorem default_parameters_suffice (p : Profile) :
  exists a : sim_args,
    kwargs_of (values_of (create_default_parameters p)) (map_names p) = Ok a
    /\ (List.NoDup (names_list (map_names p)) ->
        a = {| pb := 0.05; kex_ab := 200; dw_i_ab := 0; rho_i_a := 1;
               lambda_i_a := 10; dlambda_i_ab := 0; cs_i_a := 0 |}).
Proof.
  assert (Hsome : Forall
            (fun k => is_Some (values_of (create_default_parameters p) !! k))
            (names_list (map_names p))).
  { apply Forall_forall. intros k Hk. apply list_elem_of_In in Hk.
    unfold values_of. rewrite lookup_fmap. apply fmap_is_Some.
    unfold create_default_parameters. apply add_many_is_Some. exact Hk. }
  destruct (kwargs_of_present _ _ Hsome) as [a Ha].
  exists a. split; [exact Ha|]. intros Hnd.
  apply kwargs_of_ok in Ha as (H1 & H2 & H3 & H4 & H5 & H6 & H7).
  assert (Hval : forall k v,
             In (k, v) [(name_pb (map_names p),
                         MkParameter 0.05 (Some true) (Some 0) (Some 1) None);
                        (name_kex_ab (map_names p),
                         MkParameter 200 (Some true) (Some 0) None None);
                        (name_cs_i_a (map_names p),
                         MkParameter 0 (Some false) None None None);
                        (name_dw_i_ab (map_names p),
                         MkParameter 0 (Some true) None None None);
                        (name_lambda_i_a (map_names p),
                         MkParameter 10 (Some true) (Some 0) None None);
                        (name_dlambda_i_ab (map_names p),
                         MkParameter 0 (Some true) None None None);
                        (name_rho_i_a (map_names p),
                         MkParameter 1 (Some true) (Some 0) None None)] ->
             values_of (create_default_parameters p) !! k = Some (p_value v)).
  { intros k v Hin. unfold values_of. rewrite lookup_fmap.
    unfold create_default_parameters.
    rewrite (add_many_NoDup _ _ k v); [reflexivity | exact Hnd | exact Hin]. }
  rewrite (Hval _ _ (or_introl eq_refl)) in H1.
  rewrite (Hval _ _ (or_intror (or_introl eq_refl))) in H2.
  rewrite (Hval _ _ (or_intror (or_intror (or_introl eq_refl)))) in H3.
  rewrite (Hval _ _ (or_intror (or_intror (or_intror (or_introl eq_refl)))))
    in H4.
  rewrite (Hval _ _ (or_intror (or_intror (or_intror (or_intror
                       (or_introl eq_refl)))))) in H5.
  rewrite (Hval _ _ (or_intror (or_intror (or_intror (or_intror (or_intror
                       (or_introl eq_refl))))))) in H6.
  rewrite (Hval _ _ (or_intror (or_intror (or_intror (or_intror (or_intror
                       (or_intror (or_introl eq_refl)))))))) in H7.
  cbn [p_value] in *. destruct a; cbn in *. congruence.
Qed.

Lemma default_parameters_suffice_demo :
  List.NoDup (names_list (map_names demo_profile))
  /\ kwargs_of (values_of (create_default_parameters demo_profile))
       (map_names demo_profile)
     = Ok {| pb := 0.05; kex_ab := 200; dw_i_ab := 0; rho_i_a := 1;
             lambda_i_a := 10; dlambda_i_ab := 0; cs_i_a := 0 |}.
Proof.
  assert (Hnd : List.NoDup (names_list (map_names demo_profile))).
  { repeat constructor; simpl; intuition discriminate. }
  split; [exact Hnd|].
  destruct (default_parameters_suffice demo_profile) as (a & Ha & Hdef).
  rewrite Ha. f_equal. exact (Hdef Hnd).
Defined.

(** ** The cost of a profile *)




(** ** The cache over the life of a Profile *)

Lemma offsets_back (c : list (sim_args * list R)) (b : list R) (p : Profile) :
  set_b1_offsets (b1_offsets p) (set_b1_offsets b (set_cache c p))
  = set_cache c p.
Proof. destruct p. reflexivity. Qed.

Lemma offsets_same (c : list (sim_args * list R)) (p : Profile) :
  set_b1_offsets (b1_offsets p) (set_cache c p) = set_cache c p.
Proof. destruct p. reflexivity. Qed.

Lemma cached_call_keeps_consistent ext (a : sim_args) (p : Profile) :
  cache_consistent ext p ->
  cache_consistent ext (cached_calculate_profile ext a p).2.
Proof.
  intros Hc. pose proof Hc as Hall. unfold cache_consistent in Hall.
  rewrite Forall_forall in Hall.
  unfold cached_calculate_profile.
  destruct (cache_find a (cache p)) as [v|] eqn:E; cbn [snd].
  - apply cache_consistent_Forall. constructor.
    + exact (cache_consistent_hit ext p a v Hc E).
    + apply Forall_forall. intros kv Hkv. apply Hall.
      apply list_elem_of_In. apply list_elem_of_In in Hkv.
      now apply cache_remove_In in Hkv.
  - destruct (outcome ext (_calculate_profile ext p a)) as [v|e] eqn:Ho;
      [|exact Hc].
    apply cache_consistent_Forall. apply Forall_take.
    constructor; [exact Ho | exact Hc].
Qed.

(** X16.  The cache and the offsets over the life of a Profile.  A Profile
    that [__init__] returns has an empty store, which agrees with it.  When
    the store agrees with the Profile before a call of [calculate_residuals]
    or of [calculate_profile] without alternative offsets, it agrees with
    it after the call, whether the call returns or raises; with alternative
    offsets it agrees with it after every call that returns.  After every
    call the store agrees with the offsets that the Profile had before the
    call: these are no longer those of the Profile when the simulation at
    the alternative offsets has raised. *)
Theorem cache_stays_consistent ext (params : gmap string R)
    (b1_offsets_arg : option (list R)) (p : Profile) :
  cache_consistent ext p ->
  let r := calculate_profile ext params b1_offsets_arg p in
  cache_consistent ext (set_b1_offsets (b1_offsets p) r.2)
  /\ (b1_offsets_arg = None -> cache_consistent ext r.2)
  /\ (is_ok r.1 = true -> cache_consistent ext r.2)
  /\ cache_consistent ext (calculate_residuals ext params p).2
  /\ (forall name measurements exp_details p0,
        __init__ ext name measurements exp_details = Ok p0 ->
        cache_consistent ext p0).
Proof.
  intros Hc.
  assert (Hcp : forall arg,
             let r := calculate_profile ext params arg p in
             cache_consistent ext (set_b1_offsets (b1_offsets p) r.2)
             /\ (arg = None -> cache_consistent ext r.2)
             /\ (is_ok r.1 = true -> cache_consistent ext r.2)).
  { intros arg. cbv zeta. rewrite calculate_profile_unfold.
    destruct (kwargs_of params (map_names p)) as [kwargs|e].
    2:{ cbn [fst snd].
        replace (set_b1_offsets (b1_offsets p) p) with p by now destruct p.
        tauto. }
    cbv zeta.
    assert (H1 := cached_call_keeps_consistent ext kwargs p Hc).
    destruct (cached_call_frame ext kwargs p) as [c Hq].
    rewrite Hq in *.
    destruct ((cached_calculate_profile ext kwargs p).1) as [values|e].
    2:{ cbn [fst snd]. rewrite offsets_same. tauto. }
    destruct (_calculate_scale _ values) as [scale|e].
    2:{ cbn [fst snd]. rewrite offsets_same. tauto. }
    destruct arg as [b|].
    2:{ cbn [fst snd]. rewrite offsets_same. tauto. }
    cbv zeta.
    destruct (outcome ext _) as [values'|e]; cbn [fst snd].
    - change (b1_offsets (set_cache c p)) with (b1_offsets p).
      rewrite !offsets_back, offsets_same.
      tauto.
    - rewrite offsets_back.
      split; [exact H1 | split; discriminate]. }
  cbv zeta.
  destruct (Hcp b1_offsets_arg) as (Ha & Hb & Hd).
  split; [exact Ha | split; [exact Hb | split; [exact Hd | split]]].
  - unfold calculate_residuals. unfold mbind at 1, method_bind.
    destruct (Hcp None) as (_ & Hnone & _). specialize (Hnone eq_refl).
    destruct (calculate_profile ext params None p) as [[values|e] p1];
      [|exact Hnone].
    cbn [snd] in Hnone.
    unfold mbind, method_bind, this, raising.
    destruct (arr_sub (val p1) values) as [d|e]; [|exact Hnone].
    destruct (arr_div d (err p1)); exact Hnone.
  - intros name measurements exp_details p0 Hinit.
    apply init_fields in Hinit as (_ & _ & _ & _ & Hcache).
    unfold cache_consistent. rewrite Hcache. constructor.
Qed.

(** A Profile whose store holds two results keeps a store that agrees with
    it. *)
Lemma cache_stays_consistent_demo :
  cache_consistent demo_ext warm_profile
  /\ cache_consistent demo_ext
       (calculate_profile demo_ext demo_params None warm_profile).2.
Proof.
  split; [exact warm_profile_consistent|].
  destruct (cache_stays_consistent demo_ext demo_params None warm_profile
              warm_profile_consistent) as (_ & H & _).
  exact (H eq_refl).
Defined.
End CestMore.

(** * Properties of [reading.py] *)

Module ReadingMore.
Import Reading.

(** ** Dictionaries and enumerations *)

Lemma dict_of_snoc {V} (pairs : list (name * V)) (k : name) (v : V) :
  dict_of (pairs ++ [(k, v)]) = <[k := v]> (dict_of pairs).
Proof. unfold dict_of. now rewrite foldl_app. Qed.

Lemma enumerate_snoc {A} (l : list A) (x : A) :
  enumerate (l ++ [x]) = enumerate l ++ [(length l, x)].
Proof.
  unfold enumerate. rewrite length_app, Nat.add_1_r, seq_S.
  rewrite zip_with_app by (now rewrite length_seq). reflexivity.
Qed.

(** The dictionary of positions of a list without repetition. *)
Lemma positions_lookup (l : list name) (n : name) (i : nat) :
  List.NoDup l ->
  dict_of (map (fun ix => (ix.2, ix.1)) (enumerate l)) !! n = Some i
  <-> l !! i = Some n.
Proof.
  induction l as [|x l IH] using rev_ind; intros Hnd.
  - unfold dict_of, enumerate. simpl. rewrite lookup_empty. split; discriminate.
  - apply NoDup_remove in Hnd as [Hnd Hx]. rewrite app_nil_r in Hnd, Hx.
    rewrite enumerate_snoc, map_app. cbn [map fst snd].
    rewrite dict_of_snoc, lookup_insert.
    case_decide as Hn.
    + subst n. split.
      * intros [= <-]. rewrite lookup_app_r by lia.
        now rewrite Nat.sub_diag.
      * intros Hi. f_equal.
        destruct (decide (i < length l)%nat) as [Hlt|Hge].
        -- rewrite lookup_app_l in Hi by exact Hlt.
           exfalso. apply Hx. apply list_elem_of_In.
           eapply list_elem_of_lookup_2. exact Hi.
        -- apply lookup_lt_Some in Hi. rewrite length_app in Hi. simpl in Hi.
           lia.
    + rewrite (IH Hnd). split.
      * intros Hi. rewrite lookup_app_l; [exact Hi|].
        now apply lookup_lt_Some in Hi.
      * intros Hi.
        destruct (decide (i < length l)%nat) as [Hlt|Hge].
        -- now rewrite lookup_app_l in Hi by exact Hlt.
        -- rewrite lookup_app_r in Hi by lia.
           destruct (i - length l)%nat; simpl in Hi; [congruence|].
           discriminate.
Qed.

Lemma constants_lookup {V} (l : list name) (v : V) (n : name) :
  dict_of (map (fun ix => (ix.2, v)) (enumerate l)) !! n
  = if decide (n ∈ l) then Some v else None.
Proof.
  induction l as [|x l IH] using rev_ind.
  - unfold dict_of, enumerate. cbn [length seq zip_with map foldl].
    rewrite lookup_empty.
    case_decide as H; [now apply elem_of_nil in H | reflexivity].
  - rewrite enumerate_snoc, map_app. cbn [map fst snd].
    rewrite dict_of_snoc, lookup_insert, IH.
    destruct (decide (x = n)) as [->|Hne].
    + rewrite decide_True by (apply elem_of_app; right; apply list_elem_of_singleton; reflexivity).
      reflexivity.
    + destruct (decide (n ∈ l)) as [Hin|Hout].
      * rewrite decide_True by (apply elem_of_app; now left). reflexivity.
      * rewrite decide_False; [reflexivity|].
        rewrite elem_of_app, list_elem_of_singleton. intros [H|H]; congruence.
Qed.

Lemma iter_NoDup (order : set_order) (s : gset name) :
  List.NoDup (iter order s).
Proof.
  apply NoDup_ListNoDup. rewrite (iter_elements order s).
  apply NoDup_elements.
Qed.

Lemma iter_elem_of (order : set_order) (s : gset name) (n : name) :
  n ∈ iter order s <-> n ∈ s.
Proof. rewrite (iter_elements order s). apply elem_of_elements. Qed.

Lemma iter_length (order : set_order) (s : gset name) :
  length (iter order s) = size s.
Proof. now rewrite (iter_elements order s). Qed.

(** The two sets that the loop of [create_fitting_parameters_array] builds. *)
Lemma collected_names (data : list data_point) (fit fixed : gset name) :
  foldl (fun fit_fix data_point =>
           (fit_fix.1 ∪ fitting_parameter_names data_point,
            fit_fix.2 ∪ fixed_parameter_names data_point))
    (fit, fixed) data
  = (fit ∪ names_to_fit data, fixed ∪ names_to_fix data).
Proof.
  unfold names_to_fit, names_to_fix.
  revert fit fixed; induction data as [|d data IH]; intros fit fixed.
  - simpl. now rewrite !(right_id_L ∅ (∪)).
  - simpl. rewrite IH. now rewrite <- !(assoc_L (∪)).
Qed.

Lemma create_unfold (order : set_order) (data : list data_point) :
  create_fitting_parameters_array order data
  = (replicate (size (names_to_fit data)) 0,
     dict_of (map (fun ix => (ix.2, ix.1))
                (enumerate (iter order (names_to_fit data)))),
     dict_of (map (fun ix => (ix.2, @None R))
                (enumerate (iter order
                              (names_to_fix data ∖ names_to_fit data))))).
Proof.
  unfold create_fitting_parameters_array. rewrite collected_names.
  cbn [fst snd].
  now rewrite !(left_id_L ∅ (∪)).
Qed.

(** X21.  The indexes of the parameters to fit.  Of what
    [create_fitting_parameters_array] returns, [par] is an array of zeros
    with one entry for each name that some data point fits; [par_indexes]
    gives each of these names, and no other, a position in [par], and no
    two names the same position, so that every position of [par] belongs to
    exactly one name; [par_fixed] holds [None] for each name that some data
    point fixes and none fits, and for no other.  No name is both indexed
    and fixed.  This holds in whatever order Python lists the sets. *)
Theorem fitting_parameters_indexed (order : set_order)
    (data : list data_point) :
  let par := (create_fitting_parameters_array order data).1.1 in
  let par_indexes := (create_fitting_parameters_array order data).1.2 in
  let par_fixed := (create_fitting_parameters_array order data).2 in
  (length par = size (names_to_fit data) /\ Forall (fun x => x = 0) par)
  /\ dom par_indexes = names_to_fit data
  /\ (forall n i, par_indexes !! n = Some i -> (i < length par)%nat)
  /\ (forall n m i,
        par_indexes !! n = Some i -> par_indexes !! m = Some i -> n = m)
  /\ (forall i, (i < length par)%nat -> exists n, par_indexes !! n = Some i)
  /\ dom par_fixed = names_to_fix data ∖ names_to_fit data
  /\ (forall n v, par_fixed !! n = Some v -> v = None)
  /\ dom par_indexes ## dom par_fixed.
Proof.
  cbv zeta. rewrite create_unfold. cbn [fst snd].
  set (fit := names_to_fit data). set (fix_ := names_to_fix data ∖ fit).
  assert (Hpos := fun n i => positions_lookup (iter order fit) n i
                               (iter_NoDup order fit)).
  assert (Hdom : dom (dict_of (map (fun ix => (ix.2, ix.1))
                                 (enumerate (iter order fit)))) = fit).
  { apply set_eq. intros n. rewrite elem_of_dom. split.
    - intros [i Hi]. apply Hpos in Hi.
      apply (proj1 (iter_elem_of order fit n)).
      eapply list_elem_of_lookup_2. exact Hi.
    - intros Hn. apply (proj2 (iter_elem_of order fit n)) in Hn.
      apply list_elem_of_lookup_1 in Hn as [i Hi]. exists i. now apply Hpos. }
  assert (Hdomf : dom (dict_of (map (fun ix => (ix.2, @None R))
                                  (enumerate (iter order fix_)))) = fix_).
  { apply set_eq. intros n. rewrite elem_of_dom, constants_lookup.
    case_decide as Hin.
    - rewrite iter_elem_of in Hin. split; [intros _; exact Hin | eauto].
    - rewrite iter_elem_of in Hin. split; [intros [? ?]; discriminate | tauto]. }
  rewrite length_replicate.
  split; [split; [reflexivity | apply Forall_replicate; reflexivity]|].
  split; [exact Hdom|].
  split; [|split; [|split; [|split; [exact Hdomf | split]]]].
  - intros n i Hi. apply Hpos, lookup_lt_Some in Hi.
    now rewrite iter_length in Hi.
  - intros n m i Hn Hm. apply Hpos in Hn, Hm. congruence.
  - intros i Hi. rewrite <- (iter_length order) in Hi.
    apply lookup_lt_is_Some_2 in Hi as [n Hn]. exists n. now apply Hpos.
  - intros n v. rewrite constants_lookup. case_decide; congruence.
  - rewrite Hdom, Hdomf. subst fix_. apply elem_of_disjoint.
    intros n H1 H2. apply elem_of_difference in H2. tauto.
Qed.

(** ** Trimming *)

Lemma trim_filter_from (keys : gset name) (data acc : list data_point) :
  foldl (fun trimmed_data data_point =>
           if decide (fitting_parameter_names data_point ⊆ keys)
           then trimmed_data ++ [data_point]
           else trimmed_data)
    acc data
  = acc ++ List.filter
             (fun d => bool_decide (fitting_parameter_names d ⊆ keys)) data.
Proof.
  revert acc; induction data as [|d data IH]; intros acc.
  - simpl. now rewrite app_nil_r.
  - cbn [foldl List.filter]. rewrite IH.
    destruct (decide (fitting_parameter_names d ⊆ keys)) as [H|H].
    + rewrite bool_decide_true by exact H. now rewrite <- app_assoc.
    + rewrite bool_decide_false by exact H. reflexivity.
Qed.

Lemma trim_filter (data : list data_point) (par_indexes : gmap name nat) :
  trim_datasets_using_par data par_indexes
  = List.filter
      (fun d => bool_decide (fitting_parameter_names d ⊆ dom par_indexes))
      data.
Proof. unfold trim_datasets_using_par. now rewrite trim_filter_from. Qed.

Lemma filter_all {A} (f : A -> bool) (l : list A) :
  Forall (fun x => f x = true) l -> List.filter f l = l.
Proof.
  induction 1 as [|x l Hx Hl IH]; [reflexivity|].
  simpl. now rewrite Hx, IH.
Qed.

Lemma fitting_names_covered (data : list data_point) :
  Forall (fun d => fitting_parameter_names d ⊆ names_to_fit data) data.
Proof.
  apply Forall_forall. intros d Hd. unfold names_to_fit.
  intros n Hn. apply elem_of_union_list.
  exists (fitting_parameter_names d). split; [|exact Hn].
  apply list_elem_of_fmap. exists d. split; [reflexivity | exact Hd].
Qed.

Lemma created_indexes_dom (order : set_order) (data : list data_point) :
  dom (create_fitting_parameters_array order data).1.2 = names_to_fit data.
Proof.
  rewrite create_unfold. cbn [fst snd].
  apply set_eq. intros n. rewrite elem_of_dom. split.
  - intros [i Hi].
    apply (positions_lookup _ n i (iter_NoDup order _)) in Hi.
    apply (proj1 (iter_elem_of order (names_to_fit data) n)).
    eapply list_elem_of_lookup_2. exact Hi.
  - intros Hn. apply (proj2 (iter_elem_of order (names_to_fit data) n)) in Hn.
    apply list_elem_of_lookup_1 in Hn as [i Hi]. exists i.
    now apply (positions_lookup _ n i (iter_NoDup order _)).
Qed.

Lemma trim_created (order : set_order) (data : list data_point) :
  trim_datasets_using_par data
    (create_fitting_parameters_array order data).1.2
  = data.
Proof.
  rewrite trim_filter, created_indexes_dom. apply filter_all.
  eapply Forall_impl; [apply fitting_names_covered|].
  intros d Hd. simpl. now apply bool_decide_eq_true.
Qed.

(** X22.  What trimming keeps.  [trim_datasets_using_par] returns the data
    points all of whose fitting parameters have an index, in the order of
    the data: every point it keeps has all of them indexed, every point it
    drops lacks one, no point is added, and trimming again with the same
    indexes changes nothing. *)
Theorem trim_keeps_indexed (data : list data_point)
    (par_indexes : gmap name nat) :
  let trimmed := trim_datasets_using_par data par_indexes in
  sublist trimmed data
  /\ Forall (fun d => fitting_parameter_names d ⊆ dom par_indexes) trimmed
  /\ (forall d, In d data ->
        fitting_parameter_names d ⊆ dom par_indexes -> In d trimmed)
  /\ (forall d, In d data -> ~ In d trimmed ->
        exists n, n ∈ fitting_parameter_names d /\ par_indexes !! n = None)
  /\ trim_datasets_using_par trimmed par_indexes = trimmed.
Proof.
  cbv zeta. rewrite !trim_filter.
  set (f := fun d => bool_decide (fitting_parameter_names d ⊆ dom par_indexes)).
  assert (Hkept : Forall (fun d => f d = true) (List.filter f data)).
  { apply Forall_forall. intros d Hd. apply list_elem_of_In in Hd.
    now apply filter_In in Hd as [_ Hd]. }
  split; [|split; [|split; [|split]]].
  - clear Hkept. induction data as [|d data IH]; [constructor|].
    simpl. destruct (f d); [now apply sublist_skip | now apply sublist_cons].
  - eapply Forall_impl; [exact Hkept|]. intros d Hd.
    now apply bool_decide_eq_true in Hd.
  - intros d Hd Hsub. apply filter_In. split; [exact Hd|].
    now apply bool_decide_eq_true.
  - intros d Hd Hout.
    assert (Hnot : ~ fitting_parameter_names d ⊆ dom par_indexes).
    { intros Hsub. apply Hout. apply filter_In. split; [exact Hd|].
      now apply bool_decide_eq_true. }
    destruct (set_Exists_dec (fun n => n ∉ dom par_indexes)
                (fitting_parameter_names d)) as [[n [Hn Hnd]]|Hnone].
    + exists n. split; [exact Hn|]. now apply not_elem_of_dom.
    + exfalso. apply Hnot. intros n Hn.
      destruct (decide (n ∈ dom par_indexes)) as [Hin|Hnin]; [exact Hin|].
      exfalso. apply Hnone. exists n. tauto.
  - now apply filter_all.
Qed.

(** X23.  Trimming after creation drops nothing.  The indexes that
    [create_fitting_parameters_array] makes for a list of data points cover
    the fitting parameters of each of them, so
    [trim_datasets_using_par] returns that list unchanged; and when
    [read_par] returns, [create_par_list_to_fit] returns the indexes as
    created, and as data the points of the whole list that their own
    [filter] does not reject. *)
Theorem trimming_after_creation (order : set_order)
    (read_par : string -> list R -> gmap name nat -> gmap name (option R)
                -> option (list R * gmap name (option R)))
    (par_filename : string) (data : list data_point) :
  let created := create_fitting_parameters_array order data in
  trim_datasets_using_par data created.1.2 = data
  /\ create_par_list_to_fit order read_par par_filename data
     = (read ← read_par par_filename created.1.1 created.1.2 created.2;
        Some (read.1, created.1.2, read.2,
              List.filter
                (fun d => negb (point_filter d read.1 created.1.2 read.2))
                data)).
Proof.
  cbv zeta. split; [apply trim_created|].
  unfold create_par_list_to_fit. cbv zeta. now rewrite trim_created.
Qed.

(** ** Parameter files *)

Section ParameterFileFacts.

Context {nucleus : Type}.
Variable parse_assignment : string -> list nucleus.
Variable assignment_name : list nucleus -> string.

Lemma read_fold (par_name : name) (raw_data : list row)
    (acc : option (list (name * string))) :
  foldl (fun parameters line =>
           ps ← parameters; new ← read_line parse_assignment assignment_name par_name line; Some (ps ++ new))
    acc raw_data
  = ps ← acc; pss ← mapM (read_line parse_assignment assignment_name par_name) raw_data; Some (ps ++ concat pss).
Proof.
  revert acc; induction raw_data as [|line raw IH]; intros acc.
  - destruct acc as [ps|]; simpl; [now rewrite app_nil_r | reflexivity].
  - cbn [foldl mapM]. rewrite IH.
    destruct acc as [ps|]; [|reflexivity]. cbn [mbind option_bind].
    destruct (read_line parse_assignment assignment_name par_name line)
      as [new|]; [|reflexivity].
    cbn [mbind option_bind].
    destruct (mapM (read_line parse_assignment assignment_name par_name) raw)
      as [pss|]; [|reflexivity].
    cbn [mbind option_bind mret option_ret concat]. now rewrite app_assoc.
Qed.

Lemma read_parameter_file_mapM (raw_data : list row) (par_name : name) :
  read_parameter_file parse_assignment assignment_name raw_data par_name
  = @concat _ <$> mapM (read_line parse_assignment assignment_name par_name) raw_data.
Proof.
  unfold read_parameter_file. rewrite read_fold. simpl.
  destruct (mapM (read_line parse_assignment assignment_name par_name) raw_data); reflexivity.
Qed.

Lemma cells_of_values (line : row) {A} (items : list A) :
  length items = length line.2 ->
  map (fun ia : nat * A => cell line (S ia.1)) (enumerate items) = line.2.
Proof.
  destruct line as [first values]. unfold cell, enumerate. cbn [fst snd nth].
  revert items. induction values as [|v values IH] using rev_ind;
    intros items Hlen.
  - destruct items; [reflexivity | discriminate].
  - destruct items as [|x items _] using rev_ind.
    + rewrite length_app in Hlen. simpl in Hlen. lia.
    + rewrite !length_app in Hlen. simpl in Hlen.
      rewrite length_app, Nat.add_1_r, seq_S.
      rewrite zip_with_app by (rewrite length_seq; reflexivity).
      rewrite map_app. cbn [map zip_with fst].
      assert (Hl : length items = length values) by lia.
      rewrite <- (IH items Hl) at 2. f_equal.
      * apply map_ext_in. intros [i a] Hin. cbn [fst].
        apply app_nth1.
        apply list_elem_of_In, elem_of_zip_l, list_elem_of_In, in_seq in Hin.
        lia.
      * cbn [Nat.add]. rewrite Hl, nth_middle. reflexivity.
Qed.

(** What one row adds. *)
Lemma read_line_cases (par_name : name) (line : row) :
  match read_line parse_assignment assignment_name par_name line with
  | Some new =>
      map snd new = (if is_header line then [] else line.2)
      /\ Forall (fun nv => exists x, nv.1 = par_name ++ [x]) new
      /\ ~ misfit parse_assignment line
  | None => misfit parse_assignment line
  end.
Proof.
  unfold read_line, misfit, is_header.
  destruct (decide (line.1 ∈ ["Assignment"; "?-?"])) as [Hh|Hh].
  - rewrite bool_decide_true by exact Hh.
    split; [reflexivity | split; [constructor|]]. intros [H _]. discriminate.
  - rewrite bool_decide_false by exact Hh. cbn [length].
    rewrite Nat.sub_succ, Nat.sub_0_r.
    destruct (decide (length (parse_assignment line.1) = length line.2))
      as [Hk|Hk].
    + split; [|split].
      * rewrite map_map. cbn [snd]. now apply cells_of_values.
      * apply Forall_map. apply Forall_forall. intros ia _. eauto.
      * intros (_ & H & _). contradiction.
    + destruct (decide (S (length line.2) = 2%nat)) as [H2|H2].
      * destruct line as [first [|v [|w values]]]; simpl in H2; try lia.
        split; [reflexivity | split; [repeat constructor; eauto|]].
        intros (_ & _ & H). apply H. reflexivity.
      * split; [reflexivity | split; [exact Hk | lia]].
Qed.

(** X24.  Every value becomes one parameter.  When [read_parameter_file]
    returns, the values of the parameters it returns are the cells of the
    rows that are no headings, after their first column, row by row in the
    order of the file; and the name of each parameter is the given name
    with one element added. *)
Theorem read_parameter_file_values (raw_data : list row) (par_name : name)
    (parameters : list (name * string)) :
  read_parameter_file parse_assignment assignment_name raw_data par_name = Some parameters ->
  map snd parameters = concat (map snd (data_rows raw_data))
  /\ Forall (fun nv => exists x, nv.1 = par_name ++ [x]) parameters.
Proof.
  rewrite read_parameter_file_mapM.
  revert parameters; induction raw_data as [|line raw IH]; intros parameters.
  - simpl. intros [= <-]. split; [reflexivity | constructor].
  - cbn [mapM]. unfold data_rows. cbn [List.filter].
    assert (Hline := read_line_cases par_name line).
    destruct (read_line parse_assignment assignment_name par_name line) as [new|]; [|discriminate].
    cbn [mbind option_bind].
    destruct (mapM (read_line parse_assignment assignment_name par_name) raw) as [pss|]; [|discriminate].
    cbn [mbind option_bind mret option_ret fmap option_map concat].
    intros [= <-].
    destruct (IH (concat pss) eq_refl) as [IHv IHn].
    destruct Hline as (Hv & Hn & _).
    rewrite map_app, Hv, IHv. split.
    + destruct (is_header line); reflexivity.
    + apply Forall_app. split; assumption.
Qed.

Lemma loop_exits (raw_data : list row) (par_name : name) :
  read_parameter_file parse_assignment assignment_name raw_data par_name = None <-> Exists (misfit parse_assignment) raw_data.
Proof.
  rewrite read_parameter_file_mapM.
  induction raw_data as [|line raw IH].
  - simpl. split; [discriminate | intros H; inversion H].
  - cbn [mapM]. assert (Hline := read_line_cases par_name line).
    destruct (read_line parse_assignment assignment_name par_name line) as [new|]; cbn [mbind option_bind].
    + destruct Hline as (_ & _ & Hfit).
      destruct (mapM (read_line parse_assignment assignment_name par_name) raw) as [pss|];
        cbn [mbind option_bind mret option_ret fmap option_map] in *.
      * split; [discriminate|]. intros H.
        inversion H as [? ? Hm | ? ? Hrest]; subst; [contradiction|].
        now apply IH in Hrest.
      * split; [intros _; right; now apply IH | reflexivity].
    + split; [intros _; now left | reflexivity].
Qed.

(** X25.  How [read_parameter_file] ends.  It exits in two cases: when
    [genfromtxt] raises [IOError], and when some line of what [genfromtxt]
    has read is no heading and has a number of values that is neither the
    number of nuclei of its assignment nor one; one such line anywhere is
    enough, whatever the lines before it gave.  Another exception of
    [genfromtxt] leaves the function as it is.  In all other cases the
    function returns what the loop has gathered. *)
Theorem read_parameter_file_exits (genfromtxt : string -> loaded)
    (filename : string) (par_name : name) :
  let ending := read_parameter_file_from parse_assignment assignment_name
                  genfromtxt filename par_name in
  (ending = Exits
   <-> genfromtxt filename = NoFile
       \/ exists lines, lines_of (genfromtxt filename) = Some lines
                        /\ Exists (misfit parse_assignment) lines)
  /\ (forall what, ending = Raises what <-> genfromtxt filename = Failed what)
  /\ (forall parameters,
        ending = Returns parameters
        <-> exists lines,
              lines_of (genfromtxt filename) = Some lines
              /\ ~ Exists (misfit parse_assignment) lines
              /\ read_parameter_file parse_assignment assignment_name lines
                   par_name = Some parameters).
Proof.
  cbv zeta. unfold read_parameter_file_from.
  assert (Hloop : forall lines,
             match read_parameter_file parse_assignment assignment_name lines
                     par_name with
             | Some _ => ~ Exists (misfit parse_assignment) lines
             | None => Exists (misfit parse_assignment) lines
             end).
  { intros lines. assert (H := loop_exits lines par_name).
    destruct (read_parameter_file _ _ lines par_name).
    - intros Hex. apply H in Hex. discriminate.
    - now apply H. }
  destruct (genfromtxt filename) as [|what|line|lines]; cbn [lines_of].
  - split; [|split].
    + split; [now left | reflexivity].
    + intros what. split; discriminate.
    + intros ps. split; [discriminate | intros (l & [=] & _)].
  - split; [|split].
    + split; [discriminate | intros [[=] | (l & [=] & _)]].
    + intros w. split; intros [= <-]; reflexivity.
    + intros ps. split; [discriminate | intros (l & [=] & _)].
  - specialize (Hloop [line]).
    destruct (read_parameter_file _ _ [line] par_name) as [ps0|] eqn:E.
    + split; [|split].
      * split; [discriminate|].
        intros [[=] | (l & [= <-] & Hex)]. contradiction.
      * intros w. split; discriminate.
      * intros ps. split.
        -- intros [= <-]. exists [line]. tauto.
        -- intros (l & [= <-] & _ & Hps). congruence.
    + split; [|split].
      * split; [|reflexivity]. intros _. right. exists [line]. tauto.
      * intros w. split; discriminate.
      * intros ps. split; [discriminate|].
        intros (l & [= <-] & Hno & _). contradiction.
  - specialize (Hloop lines).
    destruct (read_parameter_file _ _ lines par_name) as [ps0|] eqn:E.
    + split; [|split].
      * split; [discriminate|].
        intros [[=] | (l & [= <-] & Hex)]. contradiction.
      * intros w. split; discriminate.
      * intros ps. split.
        -- intros [= <-]. exists lines. tauto.
        -- intros (l & [= <-] & _ & Hps). congruence.
    + split; [|split].
      * split; [|reflexivity]. intros _. right. exists lines. tauto.
      * intros w. split; discriminate.
      * intros ps. split; [discriminate|].
        intros (l & [= <-] & Hno & _). contradiction.
Qed.

(** X26.  Reading two tables in a row.  The parameters of a table that is
    one table followed by another are those of the first followed by those
    of the second, and the function exits on it when it exits on either. *)
Theorem read_parameter_file_app (raw1 raw2 : list row) (par_name : name) :
  read_parameter_file parse_assignment assignment_name (raw1 ++ raw2) par_name
  = (ps1 ← read_parameter_file parse_assignment assignment_name raw1 par_name;
     ps2 ← read_parameter_file parse_assignment assignment_name raw2 par_name;
     Some (ps1 ++ ps2)).
Proof.
  unfold read_parameter_file. rewrite foldl_app, !read_fold.
  cbn [mbind option_bind app].
  destruct (mapM (read_line parse_assignment assignment_name par_name) raw1) as [pss1|]; [|reflexivity].
  cbn [mbind option_bind app].
  destruct (mapM (read_line parse_assignment assignment_name par_name) raw2) as [pss2|]; reflexivity.
Qed.

End ParameterFileFacts.

(** A file that holds one line of headings.  [genfromtxt] returns an array
    of strings, and the loop takes each string for a line: its first
    character is no heading, and the function exits. *)
Example heading_only_file_exits :
  read_parameter_file_from (fun _ : string => @nil string) (fun _ => "")
    (fun _ => Lines [("A", ["s"; "s"; "i"; "g"; "n"; "m"; "e"; "n"; "t"]);
                     ("w", ["1"]); ("w", ["2"])])
    "shifts.txt" ["cs"]
  = Exits.
Proof. reflexivity. Qed.

Lemma read_parameter_file_values_demo :
  map snd [(["r2"; "G23N"], "105.0"); (["r2"; "G23H"], "8.0")]
  = concat (map snd (data_rows [("Assignment", ["w1"; "w2"]);
                                ("G23N-H", ["105.0"; "8.0"])])).
Proof.
  apply (read_parameter_file_values
           (fun s : string => if decide (s = "G23N-H") then ["N"; "H"] else [])
           (fun ns => match ns with
                      | ["N"] => "G23N" | ["H"] => "G23H" | _ => "G23N-H"
                      end)
           [("Assignment", ["w1"; "w2"]); ("G23N-H", ["105.0"; "8.0"])]
           ["r2"]).
  reflexivity.
Defined.

End ReadingMore.
